(** * Email-automation report pipeline: a shallow embedding of
      [data_processor.py] (class [EmailDataProcessor]) and its properties.

    Modelling conventions.

    - A pandas/numpy [float64] is modelled by the type [num]: the exact
      rational value of a finite float, or one of the IEEE special values
      NaN, +inf, -inf.  Arithmetic follows IEEE 754 on the special values
      (x/0, 0/0, inf-inf, comparisons with NaN, ...); rounding, underflow
      and the sign of zero are not modelled.  A decimal read from text
      that is beyond the largest [float64] is an infinity; sums, products
      and quotients are exact, their overflow to an infinity is not
      modelled.  Integer columns ([int64]) are modelled by the same type,
      their sums are exact (the wrap-around of [int64] sums is not
      modelled).  The statements on the size of totals and rates are
      about whole-number volumes whose sums stay below 2^53, where
      [int64] and [float64] sums are exact.
    - A missing value (pandas [NaN]/[None] in a numeric column) is [NaN]; a
      missing value in a text column is [None].
    - A DataFrame is the list of its rows, in index order; the columns the
      pipeline reads are record fields, every other column is carried along
      in the field [other].  The export has the columns of its documented
      format and the mapping has the two columns ['Message name'] and
      ['Automacao'], so that no column lookup fails.
    - Text is a [string] of bytes; for ASCII text this is Python's [str],
      and the byte order of UTF-8 text is the code-point order Python
      compares by.  Cutting a text at a position counts bytes, which are
      the characters Python counts when the text up to there is ASCII.
    - The columns ['Message name'], ['Automacao'] and ['Subject'] are text
      columns, in the export and in the mapping.  A column of which every
      cell is a number is read by [pd.read_csv] as a numeric column: then
      [pd.merge] raises [ValueError] when the other ['Message name']
      column is text, groups are ordered as numbers, and the [.str]
      methods of [analyze_subject_performance] raise [AttributeError];
      such tables are outside the model.
    - [pd.read_csv], the pickle and JSON files and the clock are outside the
      program: the parsed table and the current date are arguments.
    - [pct_change] fills missing values forward before pandas 3 and does not
      from pandas 3 on: the flag [pad] selects the behaviour, and the
      statements hold for both.
    - Python exceptions are values of type [exn]; a method that mutates
      [self] returns the new object together with its outcome. *)

From Stdlib Require Import ZArith QArith Qreduction List String Ascii Bool Lia.
From Stdlib Require Import Sorting.Sorted Structures.OrdersEx DecimalString.
Import ListNotations.

Local Open Scope string_scope.

(* ===================================================================== *)
(** ** Numbers: float64 with exact finite values                         *)
(* ===================================================================== *)

Inductive num : Type :=
| NaN
| PInf
| NInf
| Fin (q : Q).

Definition fin_z (z : Z) : num := Fin (inject_Z z).

Definition isnan (x : num) : bool :=
  match x with NaN => true | _ => false end.

Definition isinf (x : num) : bool :=
  match x with PInf | NInf => true | _ => false end.

(** Sign of a rational: [Lt] negative, [Eq] zero, [Gt] positive. *)
Definition qsign (q : Q) : comparison := (Qnum q ?= 0)%Z.

Definition nneg (x : num) : num :=
  match x with
  | NaN => NaN
  | PInf => NInf
  | NInf => PInf
  | Fin q => Fin (Qred (- q)%Q)
  end.

Definition nadd (x y : num) : num :=
  match x, y with
  | NaN, _ | _, NaN => NaN
  | PInf, NInf | NInf, PInf => NaN
  | PInf, _ | _, PInf => PInf
  | NInf, _ | _, NInf => NInf
  | Fin a, Fin b => Fin (Qred (a + b)%Q)
  end.

Definition nsub (x y : num) : num := nadd x (nneg y).

Definition signed_inf (s : comparison) : num :=
  match s with Gt => PInf | Lt => NInf | Eq => NaN end.

Definition nmul (x y : num) : num :=
  match x, y with
  | NaN, _ | _, NaN => NaN
  | Fin a, Fin b => Fin (Qred (a * b)%Q)
  | PInf, PInf | NInf, NInf => PInf
  | PInf, NInf | NInf, PInf => NInf
  | PInf, Fin a | Fin a, PInf => signed_inf (qsign a)
  | NInf, Fin a | Fin a, NInf => signed_inf (CompOpp (qsign a))
  end.

(** True division of numpy: a finite non-zero value over zero is an
    infinity, zero over zero is NaN; nothing raises. *)
Definition ndiv (x y : num) : num :=
  match x, y with
  | NaN, _ | _, NaN => NaN
  | Fin a, Fin b =>
      match qsign b with
      | Eq => signed_inf (qsign a)
      | _ => Fin (Qred (a / b)%Q)
      end
  | Fin _, _ => Fin 0%Q
  | PInf, Fin b => match qsign b with Lt => NInf | _ => PInf end
  | NInf, Fin b => match qsign b with Lt => PInf | _ => NInf end
  | _, _ => NaN
  end.

(** [x >= y] and [x > y]; every comparison with NaN is false. *)
Definition nge (x y : num) : bool :=
  match x, y with
  | NaN, _ | _, NaN => false
  | PInf, _ => true
  | _, NInf => true
  | NInf, _ => false
  | _, PInf => false
  | Fin a, Fin b => match (a ?= b)%Q with Lt => false | _ => true end
  end.

Definition ngt (x y : num) : bool :=
  match x, y with
  | NaN, _ | _, NaN => false
  | PInf, PInf | NInf, NInf => false
  | PInf, _ => true
  | _, NInf => true
  | NInf, _ => false
  | _, PInf => false
  | Fin a, Fin b => match (a ?= b)%Q with Gt => true | _ => false end
  end.

(** [Series.sum()] and the group-by [sum]: missing values are skipped
    ([skipna=True]) and the empty sum is 0. *)
Definition nsum (l : list num) : num :=
  fold_left (fun acc x => if isnan x then acc else nadd acc x) l (Fin 0%Q).

(** A finite value between 0 and 1. *)
Definition in_unit (x : num) : Prop :=
  match x with
  | Fin q => (0 <= q)%Q /\ (q <= 1)%Q
  | _ => False
  end.

(* ===================================================================== *)
(** ** Python strings                                                    *)
(* ===================================================================== *)

(** [s.endswith(suffix)] *)
Fixpoint endswith (s suffix : string) : bool :=
  if String.eqb s suffix then true
  else match s with
       | EmptyString => false
       | String _ s' => endswith s' suffix
       end.

Fixpoint lstrip_char (c : ascii) (s : string) : string :=
  match s with
  | String a s' => if Ascii.eqb a c then lstrip_char c s' else s
  | EmptyString => EmptyString
  end.

Fixpoint rstrip_char (c : ascii) (s : string) : string :=
  match s with
  | EmptyString => EmptyString
  | String a s' =>
      match rstrip_char c s' with
      | EmptyString => if Ascii.eqb a c then EmptyString else String a EmptyString
      | r => String a r
      end
  end.

(** [s.strip(c)] for a one-character argument: every leading and trailing
    occurrence of [c] is removed. *)
Definition strip_char (c : ascii) (s : string) : string :=
  rstrip_char c (lstrip_char c s).

(** [sub in s] *)
Fixpoint contains (sub s : string) : bool :=
  if String.prefix sub s then true
  else match s with
       | EmptyString => false
       | String _ s' => contains sub s'
       end.

(** [s.split(sep)] for a non-empty separator: [skip] counts the characters
    of a separator still to be dropped, [cur] is the current piece. *)
Fixpoint split_aux (sep : string) (skip : nat) (cur : string) (s : string)
  : list string :=
  match s with
  | EmptyString => [cur]
  | String c s' =>
      match skip with
      | S k => split_aux sep k cur s'
      | O =>
          if String.prefix sep s
          then cur :: split_aux sep (String.length sep - 1) EmptyString s'
          else split_aux sep O (cur ++ String c EmptyString) s'
      end
  end.

Definition split (sep s : string) : list string := split_aux sep 0 EmptyString s.

(** [s[:n]] and [s[n:]] *)
Definition slice_to (n : nat) (s : string) : string := String.substring 0 n s.
Definition slice_from (n : nat) (s : string) : string :=
  String.substring n (String.length s - n) s.

(** [os.path.basename]: what follows the last ["/"]. *)
Fixpoint basename_aux (cur : string) (s : string) : string :=
  match s with
  | EmptyString => cur
  | String c s' =>
      if Ascii.eqb c "/"%char then basename_aux EmptyString s'
      else basename_aux (cur ++ String c EmptyString) s'
  end.

Definition basename (p : string) : string := basename_aux EmptyString p.

(** [str(n)] for an integer. *)
Definition str_of_Z (z : Z) : string := NilZero.string_of_int (Z.to_int z).


(* ===================================================================== *)
(** ** Reading a number from text                                        *)
(* ===================================================================== *)

Definition digit_val (c : ascii) : option Z :=
  let n := nat_of_ascii c in
  if andb (48 <=? n)%nat (n <=? 57)%nat then Some (Z.of_nat (n - 48)) else None.

(** White space of [str.strip()] in ASCII text: tab, line feed, vertical
    tab, form feed, carriage return, the four separators 28..31 and the
    space. *)
Definition is_space (c : ascii) : bool :=
  let n := nat_of_ascii c in
  orb (andb (9 <=? n)%nat (n <=? 13)%nat)
      (orb (andb (28 <=? n)%nat (n <=? 31)%nat) (n =? 32)%nat).

Fixpoint lstrip_space (l : list ascii) : list ascii :=
  match l with
  | c :: l' => if is_space c then lstrip_space l' else l
  | [] => []
  end.

Definition strip_space (l : list ascii) : list ascii :=
  rev (lstrip_space (rev (lstrip_space l))).

(** White space [float()] removes around a number in ASCII text: tab, line
    feed, vertical tab, form feed, carriage return and the space.  The
    separators 28..31 are not among them: [float] raises on them. *)
Definition is_float_space (c : ascii) : bool :=
  let n := nat_of_ascii c in
  orb (andb (9 <=? n)%nat (n <=? 13)%nat) (n =? 32)%nat.

Fixpoint lstrip_float_space (l : list ascii) : list ascii :=
  match l with
  | c :: l' => if is_float_space c then lstrip_float_space l' else l
  | [] => []
  end.

Definition strip_float_space (l : list ascii) : list ascii :=
  rev (lstrip_float_space (rev (lstrip_float_space l))).

(** Lower case of an ASCII letter. *)
Definition lower (c : ascii) : ascii :=
  let n := nat_of_ascii c in
  if andb (65 <=? n)%nat (n <=? 90)%nat then ascii_of_nat (n + 32) else c.

(** A run of digits; with [us] a single underscore is allowed between two
    digits (Python's numeric literals).  Returns the digits read and the
    rest of the input. *)
Fixpoint digits_tail (us : bool) (l : list ascii) : list Z * list ascii :=
  match l with
  | [] => ([], [])
  | c :: l' =>
      match digit_val c with
      | Some d => let (ds, r) := digits_tail us l' in (d :: ds, r)
      | None =>
          if andb us (Ascii.eqb c "_"%char) then
            match l' with
            | c' :: l'' =>
                match digit_val c' with
                | Some d => let (ds, r) := digits_tail us l'' in (d :: ds, r)
                | None => ([], l)
                end
            | [] => ([], l)
            end
          else ([], l)
      end
  end.

Definition digitpart (us : bool) (l : list ascii) : list Z * list ascii :=
  match l with
  | c :: _ => match digit_val c with
              | Some _ => digits_tail us l
              | None => ([], l)
              end
  | [] => ([], [])
  end.

Definition Z_of_digits (ds : list Z) : Z :=
  fold_left (fun acc d => (10 * acc + d)%Z) ds 0%Z.

(** An optional sign: [true] when negative. *)
Definition read_sign (l : list ascii) : bool * list ascii :=
  match l with
  | c :: l' =>
      if Ascii.eqb c "-"%char then (true, l')
      else if Ascii.eqb c "+"%char then (false, l')
      else (false, l)
  | [] => (false, [])
  end.

(** The exponent part: nothing, or [e]/[E], an optional sign and at least
    one digit.  [None] when the rest of the input is not an exponent. *)
Definition read_exponent (us : bool) (l : list ascii) : option Z :=
  match l with
  | [] => Some 0%Z
  | c :: l' =>
      if Ascii.eqb (lower c) "e"%char then
        let (neg, l1) := read_sign l' in
        match digitpart us l1 with
        | (d :: ds, []) =>
            let e := Z_of_digits (d :: ds) in
            Some (if neg then (- e)%Z else e)
        | _ => None
        end
      else None
  end.

(** [m * 10^k] *)
Definition scale10 (m k : Z) : Q :=
  if (0 <=? k)%Z then inject_Z (m * 10 ^ k)
  else Qred (Qmake m (Z.to_pos (10 ^ (- k)))).

(** The unsigned decimal number: digits, an optional point and more
    digits (at least one digit in all), an optional exponent. *)
Definition read_decimal (us : bool) (l : list ascii) : option Q :=
  let (ip, l1) := digitpart us l in
  let (fp, l2) :=
    match l1 with
    | c :: l1' => if Ascii.eqb c "."%char then digitpart us l1' else ([], l1)
    | [] => ([], [])
    end in
  match (ip ++ fp)%list with
  | [] => None
  | ds =>
      match read_exponent us l2 with
      | Some e => Some (scale10 (Z_of_digits ds) (e - Z.of_nat (List.length fp)))
      | None => None
      end
  end.

Definition lower_string (l : list ascii) : string :=
  string_of_list_ascii (map lower l).

(** The least magnitude that a [float64] reads as an infinity: half a unit
    in the last place above the largest finite value [2^1024 - 2^971]. *)
Definition float_overflow : Q := inject_Z (2 ^ 1024 - 2 ^ 970).

(** The [float64] of a decimal of magnitude [q] (with [0 <= q]): an
    infinity from [float_overflow] on, the value itself below. *)
Definition to_float (neg : bool) (q : Q) : num :=
  if Qle_bool float_overflow q then (if neg then NInf else PInf)
  else Fin (if neg then Qred (- q)%Q else q).

(** Text to number: surrounding white space, a sign, then [inf],
    [infinity], [nan] in any case or a decimal number.  [None] when the
    text is not a number. *)
Definition read_number (us : bool) (s : string) : option num :=
  let (neg, body) := read_sign (strip_float_space (list_ascii_of_string s)) in
  let w := lower_string body in
  if orb (String.eqb w "inf") (String.eqb w "infinity")
  then Some (if neg then NInf else PInf)
  else if String.eqb w "nan" then Some NaN
  else match read_decimal us body with
       | Some q => Some (to_float neg q)
       | None => None
       end.

(** Python's [float(s)] on a string of ASCII text: [None] stands for
    [ValueError].  A text with a byte outside ASCII is never read as a
    number here, whereas [float] also reads the decimal digits and the
    spaces of other scripts: the statements below that rest on a
    [ValueError] are about ASCII text. *)
Definition py_float (s : string) : option num := read_number true s.


(** [pd.to_numeric] on a text cell: the same grammar without underscores
    (pandas has its own reader; only its outcome on unreadable text,
    a missing value under [errors='coerce'], matters below). *)
Definition to_numeric_str (s : string) : option num := read_number false s.

(* ===================================================================== *)
(** ** Tables                                                            *)
(* ===================================================================== *)

Inductive exn : Type := ValueError | AttributeError | IndexError.

Inductive result (A : Type) : Type :=
| Ok (a : A)
| Raise (e : exn).
Arguments Ok {A} a.
Arguments Raise {A} e.

(** A cell as [read_csv] leaves it: text, or a number (a missing cell is
    the number NaN). *)
Inductive cell : Type :=
| CStr (s : string)
| CNum (x : num).

(** The seven volume columns of [numeric_columns]. *)
Record counts (A : Type) : Type := mkCounts {
  Sent : A;
  Delivered : A;
  Opened : A;
  Clicked : A;
  Bounced : A;
  Marked_as_spam : A;
  Unsubscribed : A
}.
Arguments mkCounts {A}.
Arguments Sent {A}.
Arguments Delivered {A}.
Arguments Opened {A}.
Arguments Clicked {A}.
Arguments Bounced {A}.
Arguments Marked_as_spam {A}.
Arguments Unsubscribed {A}.

(** The six rate columns of [percent_columns]. *)
Record rates : Type := mkRates {
  Open_rate : cell;
  Click_rate : cell;
  CTOR_rate : cell;
  Bounce_rate : cell;
  Spam_complaint_rate : cell;
  Unsubscribe_rate : cell
}.

Inductive rate_col : Type :=
| ColOpen | ColClick | ColCTOR | ColBounce | ColSpam | ColUnsubscribe.

Definition percent_columns : list rate_col :=
  [ColOpen; ColClick; ColCTOR; ColBounce; ColSpam; ColUnsubscribe].

Definition get_rate (c : rate_col) (r : rates) : cell :=
  match c with
  | ColOpen => Open_rate r
  | ColClick => Click_rate r
  | ColCTOR => CTOR_rate r
  | ColBounce => Bounce_rate r
  | ColSpam => Spam_complaint_rate r
  | ColUnsubscribe => Unsubscribe_rate r
  end.

Definition set_rate (c : rate_col) (v : cell) (r : rates) : rates :=
  match c with
  | ColOpen => mkRates v (Click_rate r) (CTOR_rate r) (Bounce_rate r) (Spam_complaint_rate r) (Unsubscribe_rate r)
  | ColClick => mkRates (Open_rate r) v (CTOR_rate r) (Bounce_rate r) (Spam_complaint_rate r) (Unsubscribe_rate r)
  | ColCTOR => mkRates (Open_rate r) (Click_rate r) v (Bounce_rate r) (Spam_complaint_rate r) (Unsubscribe_rate r)
  | ColBounce => mkRates (Open_rate r) (Click_rate r) (CTOR_rate r) v (Spam_complaint_rate r) (Unsubscribe_rate r)
  | ColSpam => mkRates (Open_rate r) (Click_rate r) (CTOR_rate r) (Bounce_rate r) v (Unsubscribe_rate r)
  | ColUnsubscribe => mkRates (Open_rate r) (Click_rate r) (CTOR_rate r) (Bounce_rate r) (Spam_complaint_rate r) v
  end.

(** One row of the weekly export as read from the CSV file. *)
Record raw_row : Type := mkRaw {
  raw_message_name : option string;
  raw_subject : option string;
  raw_counts : counts cell;
  raw_rates : rates;
  raw_other : list (string * cell)
}.

(** One row of a processed weekly table: volumes are numbers, the rate
    columns hold whatever the percent conversion left in them, and
    [Semana] is the week label. *)
Record row : Type := mkRow {
  Message_name : option string;
  Subject : option string;
  vol : counts num;
  rate : rates;
  Semana : option string;
  other : list (string * cell)
}.

Definition table : Type := list row.

(** One row of the mapping file. *)
Record mapping_row : Type := mkMap {
  map_message_name : option string;
  map_automacao : option string
}.

(** A row of a weekly table joined with the mapping. *)
Record merged_row : Type := mkMerged {
  left : row;
  Automacao : option string
}.

(* ===================================================================== *)
(** ** The processor object                                              *)
(* ===================================================================== *)

(** [historical_data] is a Python dict: an association list in insertion
    order, a key occurs once.  A week label is [None] when Python's
    [week_label] is [None]. *)
Record processor : Type := mkProcessor {
  historical_data : list (option string * table);
  mapping_data : option (list mapping_row);
  current_week_data : option table;
  all_weeks_data : option table;
  metadata_weeks : list (option string)
}.

(** [EmailDataProcessor()] with no metadata file on disk. *)
Definition init : processor := mkProcessor [] None None None [].

Definition label_eqb (a b : option string) : bool :=
  match a, b with
  | Some x, Some y => String.eqb x y
  | None, None => true
  | _, _ => false
  end.

(** [d[k] = v]: an existing key keeps its position. *)
Fixpoint dict_set {V : Type} (k : option string) (v : V)
  (d : list (option string * V)) : list (option string * V) :=
  match d with
  | [] => [(k, v)]
  | (k', v') :: d' =>
      if label_eqb k' k then (k, v) :: d' else (k', v') :: dict_set k v d'
  end.

Fixpoint dict_get {V : Type} (k : option string)
  (d : list (option string * V)) : option V :=
  match d with
  | [] => None
  | (k', v') :: d' => if label_eqb k' k then Some v' else dict_get k d'
  end.

(** [k in l] for a list of labels. *)
Definition label_in (k : option string) (l : list (option string)) : bool :=
  existsb (label_eqb k) l.

(* ===================================================================== *)
(** ** Normalising a weekly export                                       *)
(* ===================================================================== *)

(** [_convert_percent_to_float]: [float()] raises [ValueError] on text that
    is not a number. *)
Definition _convert_percent_to_float (value : cell) : result cell :=
  match value with
  | CStr s =>
      if endswith s "%" then
        match py_float (strip_char "%" s) with
        | Some x => Ok (CNum (ndiv x (fin_z 100)))
        | None => Raise ValueError
        end
      else Ok value
  | CNum _ => Ok value
  end.

(** [df[col] = df[col].apply(self._convert_percent_to_float)]: the cells of
    one column from the first row to the last; the first exception leaves
    the loop. *)
Fixpoint apply_percent (col : rate_col) (df : list raw_row)
  : result (list raw_row) :=
  match df with
  | [] => Ok []
  | r :: df' =>
      match _convert_percent_to_float (get_rate col (raw_rates r)) with
      | Raise e => Raise e
      | Ok v =>
          match apply_percent col df' with
          | Raise e => Raise e
          | Ok rest =>
              Ok (mkRaw (raw_message_name r) (raw_subject r) (raw_counts r)
                        (set_rate col v (raw_rates r)) (raw_other r) :: rest)
          end
      end
  end.

(** [for col in percent_columns: ...] *)
Fixpoint convert_percent_columns (cols : list rate_col) (df : list raw_row)
  : result (list raw_row) :=
  match cols with
  | [] => Ok df
  | col :: cols' =>
      match apply_percent col df with
      | Raise e => Raise e
      | Ok df' => convert_percent_columns cols' df'
      end
  end.

(** [pd.to_numeric(df[col], errors='coerce')] on one cell. *)
Definition to_numeric (c : cell) : num :=
  match c with
  | CNum x => x
  | CStr s => match to_numeric_str s with Some x => x | None => NaN end
  end.

Definition to_numeric_counts (c : counts cell) : counts num :=
  mkCounts (to_numeric (Sent c)) (to_numeric (Delivered c))
           (to_numeric (Opened c)) (to_numeric (Clicked c))
           (to_numeric (Bounced c)) (to_numeric (Marked_as_spam c))
           (to_numeric (Unsubscribed c)).

(** The current date as far as the fallback label reads it:
    [now.isocalendar()[1]] and [now.year]. *)
Record clock : Type := mkClock { iso_week : Z; year : Z }.

(** The body of the [try] block: the label read from the file name.
    [Ok None] is the case where the [if] is not taken: [week_label] keeps
    its value [None]. *)
Definition label_from_filename (file_path : string) : result (option string) :=
  let filename := basename file_path in
  if andb (contains "sent_" filename) (contains ".csv" filename) then
    match nth_error (split "sent_" filename) 1 with
    | None => Raise IndexError
    | Some after =>
        match nth_error (split ".csv" after) 0 with
        | None => Raise IndexError
        | Some date_part =>
            let start_date := slice_to 10 date_part in
            let end_date := slice_from 10 date_part in
            Ok (Some (start_date ++ " a " ++ end_date))
        end
    end
  else Ok None.

(** The label of the [except] branch. *)
Definition fallback_label (now : clock) : string :=
  "Semana " ++ str_of_Z (iso_week now) ++ ", " ++ str_of_Z (year now).

(** [if week_label is None: try: ... except: ...] *)
Definition resolve_week_label (file_path : string) (week_label : option string)
  (now : clock) : option string :=
  match week_label with
  | Some l => Some l
  | None =>
      match label_from_filename file_path with
      | Ok l => l
      | Raise _ => Some (fallback_label now)
      end
  end.

Definition process_row (label : option string) (r : raw_row) : row :=
  mkRow (raw_message_name r) (raw_subject r) (to_numeric_counts (raw_counts r))
        (raw_rates r) label (raw_other r).

(** [load_weekly_data(file_path, week_label)]; [csv] is what
    [pd.read_csv(file_path)] returned, with its column names cleaned.  The
    object is updated before the name of the week file is built, and
    [week_label.replace] raises [AttributeError] when the label is [None]. *)
Definition load_weekly_data (self : processor) (file_path : string)
  (csv : list raw_row) (week_label : option string) (now : clock)
  : processor * result table :=
  match convert_percent_columns percent_columns csv with
  | Raise e => (self, Raise e)
  | Ok df0 =>
      let label := resolve_week_label file_path week_label now in
      let df := map (process_row label) df0 in
      let self' :=
        mkProcessor (dict_set label df (historical_data self))
                    (mapping_data self)
                    (Some df)
                    (all_weeks_data self)
                    (if label_in label (metadata_weeks self)
                     then metadata_weeks self
                     else (metadata_weeks self ++ [label])%list) in
      match label with
      | None => (self', Raise AttributeError)
      | Some _ => (self', Ok df)
      end
  end.

(** [load_automation_mapping(file_path)]; [csv] is the mapping file read. *)
Definition load_automation_mapping (self : processor) (csv : list mapping_row)
  : processor * list mapping_row :=
  (mkProcessor (historical_data self) (Some csv) (current_week_data self)
               (all_weeks_data self) (metadata_weeks self), csv).


(* ===================================================================== *)
(** ** Joining with the mapping and combining the weeks                  *)
(* ===================================================================== *)

(** The rows a left row is joined with: one per mapping entry with the
    same ['Message name'], in the order of the mapping; a row without an
    entry is kept once, with a null ['Automacao']. *)
Definition join_row (mapping : list mapping_row) (r : row) : list merged_row :=
  match filter (fun e => label_eqb (map_message_name e) (Message_name r)) mapping with
  | [] => [mkMerged r None]
  | es => map (fun e => mkMerged r (map_automacao e)) es
  end.

(** [pd.merge(df, mapping, on='Message name', how='left')] *)
Definition merge_left (df : table) (mapping : list mapping_row) : list merged_row :=
  flat_map (join_row mapping) df.

(** [merge_with_mapping(df)] *)
Definition merge_with_mapping (self : processor) (df : option table)
  : result (list merged_row) :=
  let df := match df with Some d => Some d | None => current_week_data self end in
  match df, mapping_data self with
  | Some d, Some m => Ok (merge_left d m)
  | _, _ => Raise ValueError
  end.

(** [combine_all_weeks()]: the stored weeks in the order of the dict. *)
Definition combine_all_weeks (self : processor) : processor * result table :=
  match historical_data self with
  | [] => (self, Raise ValueError)
  | hd =>
      let all_data := List.concat (map snd hd) in
      (mkProcessor (historical_data self) (mapping_data self)
                   (current_week_data self) (Some all_data)
                   (metadata_weeks self),
       Ok all_data)
  end.

(* ===================================================================== *)
(** ** Grouping and summing                                              *)
(* ===================================================================== *)

(** The six summed columns of a group. *)
Record totals : Type := mkTotals {
  sum_Sent : num;
  sum_Delivered : num;
  sum_Opened : num;
  sum_Clicked : num;
  sum_Bounced : num;
  sum_Unsubscribed : num
}.

(** A row of an aggregated table: the group key, the sums and the six
    rates computed from them. *)
Record metrics (K : Type) : Type := mkMetrics {
  key : K;
  sums : totals;
  Delivery_Rate : num;
  Open_Rate : num;
  Click_Rate : num;
  CTOR : num;
  Bounce_Rate : num;
  Unsubscribe_Rate : num
}.
Arguments mkMetrics {K}.
Arguments key {K}.
Arguments sums {K}.
Arguments Delivery_Rate {K}.
Arguments Open_Rate {K}.
Arguments Click_Rate {K}.
Arguments CTOR {K}.
Arguments Bounce_Rate {K}.
Arguments Unsubscribe_Rate {K}.

Definition is_Eq (c : comparison) : bool :=
  match c with Eq => true | _ => false end.

Section GroupBy.
Context {R K : Type}.
Variable cmp : K -> K -> comparison.
(** The group key of a row; [None] when a key column is null. *)
Variable key_of : R -> option K.
Variable vol_of : R -> counts num.

(** Insertion of a key in the sorted list of the distinct keys. *)
Fixpoint insert_key (k : K) (ks : list K) : list K :=
  match ks with
  | [] => [k]
  | k' :: ks' =>
      match cmp k k' with
      | Lt => k :: ks
      | Eq => ks
      | Gt => k' :: insert_key k ks'
      end
  end.

(** The keys of the rows added one by one to the sorted keys [ks]; a row
    with a null key adds nothing ([dropna=True]). *)
Definition collect_keys (ks : list K) (rows : list R) : list K :=
  fold_left (fun ks r => match key_of r with
                         | Some k => insert_key k ks
                         | None => ks
                         end) rows ks.

(** The group keys, sorted ([sort=True]). *)
Definition group_keys (rows : list R) : list K := collect_keys [] rows.

Definition in_group (k : K) (r : R) : bool :=
  match key_of r with
  | Some k' => is_Eq (cmp k' k)
  | None => false
  end.

Definition sum_group (rows : list R) : totals :=
  let col f := nsum (map (fun r => f (vol_of r)) rows) in
  mkTotals (col Sent) (col Delivered) (col Opened) (col Clicked)
           (col Bounced) (col Unsubscribed).

(** [rows.groupby(keys).agg({...: 'sum'}).reset_index()] *)
Definition groupby_sum (rows : list R) : list (K * totals) :=
  map (fun k => (k, sum_group (filter (in_group k) rows))) (group_keys rows).
End GroupBy.

(** The six rate columns added to an aggregated table: element-wise
    divisions of the summed columns. *)
Definition add_rates {K : Type} (g : K * totals) : metrics K :=
  let t := snd g in
  mkMetrics (fst g) t
    (ndiv (sum_Delivered t) (sum_Sent t))
    (ndiv (sum_Opened t) (sum_Delivered t))
    (ndiv (sum_Clicked t) (sum_Delivered t))
    (ndiv (sum_Clicked t) (sum_Opened t))
    (ndiv (sum_Bounced t) (sum_Sent t))
    (ndiv (sum_Unsubscribed t) (sum_Delivered t)).

(** [df[df['Sent'] >= min_emails]] *)
Definition filter_min_emails {K : Type} (min_emails : Z) (l : list (metrics K))
  : list (metrics K) :=
  filter (fun m => nge (sum_Sent (sums m)) (fin_z min_emails)) l.

Definition str_compare : string -> string -> comparison := String_as_OT.compare.

(** Order of the pairs (automation, week): by automation, then by week,
    both compared as text. *)
Definition pair_compare (a b : string * string) : comparison :=
  match str_compare (fst a) (fst b) with
  | Eq => str_compare (snd a) (snd b)
  | c => c
  end.

Definition automation_key (r : merged_row) : option string := Automacao r.

Definition automation_week_key (r : merged_row) : option (string * string) :=
  match Automacao r, Semana (left r) with
  | Some a, Some w => Some (a, w)
  | _, _ => None
  end.

Definition merged_vol (r : merged_row) : counts num := vol (left r).

(** The table computed by [get_automation_performance] from the merged
    data. *)
Definition automation_metrics (merged_data : list merged_row) (min_emails : Z)
  : list (metrics string) :=
  filter_min_emails min_emails
    (map add_rates (groupby_sum str_compare automation_key merged_vol merged_data)).

(** The table computed by [get_weekly_automation_performance] from the
    merged data. *)
Definition weekly_metrics (merged_data : list merged_row)
  : list (metrics (string * string)) :=
  map add_rates (groupby_sum pair_compare automation_week_key merged_vol merged_data).

(** The rate part of the table computed by [analyze_subject_performance]
    (the four text features of the subject are not modelled). *)
Definition subject_metrics (all_data : table) (min_emails : Z)
  : list (metrics string) :=
  filter_min_emails min_emails
    (map add_rates (groupby_sum str_compare Subject vol all_data)).

(** [if self.all_weeks_data is None: self.combine_all_weeks()] *)
Definition ensure_combined (self : processor) : processor * result table :=
  match all_weeks_data self with
  | Some d => (self, Ok d)
  | None => combine_all_weeks self
  end.

(** [get_automation_performance(min_emails)] *)
Definition get_automation_performance (self : processor) (min_emails : Z)
  : processor * result (list (metrics string)) :=
  match ensure_combined self with
  | (self', Raise e) => (self', Raise e)
  | (self', Ok all_data) =>
      match mapping_data self' with
      | None => (self', Raise ValueError)
      | Some _ =>
          match merge_with_mapping self' (Some all_data) with
          | Raise e => (self', Raise e)
          | Ok merged_data => (self', Ok (automation_metrics merged_data min_emails))
          end
      end
  end.

(** [get_weekly_automation_performance()] *)
Definition get_weekly_automation_performance (self : processor)
  : processor * result (list (metrics (string * string))) :=
  match ensure_combined self with
  | (self', Raise e) => (self', Raise e)
  | (self', Ok all_data) =>
      match mapping_data self' with
      | None => (self', Raise ValueError)
      | Some _ =>
          match merge_with_mapping self' (Some all_data) with
          | Raise e => (self', Raise e)
          | Ok merged_data => (self', Ok (weekly_metrics merged_data))
          end
      end
  end.

(** [analyze_subject_performance(min_emails)] *)
Definition analyze_subject_performance (self : processor) (min_emails : Z)
  : processor * result (list (metrics string)) :=
  match ensure_combined self with
  | (self', Raise e) => (self', Raise e)
  | (self', Ok all_data) => (self', Ok (subject_metrics all_data min_emails))
  end.

(* ===================================================================== *)
(** ** Summary of one week                                               *)
(* ===================================================================== *)

Record summary : Type := mkSummary {
  semana : string;
  total_sent : num;
  total_delivered : num;
  total_opened : num;
  total_clicked : num;
  total_bounced : num;
  total_unsubscribed : num;
  delivery_rate : num;
  open_rate : num;
  click_rate : num;
  bounce_rate : num;
  unsubscribe_rate : num;
  ctor : num
}.

(** [a / b if b > 0 else 0] *)
Definition guarded_ratio (a b : num) : num :=
  if ngt b (fin_z 0) then ndiv a b else fin_z 0.

Definition week_totals (df : table) : totals :=
  sum_group vol df.

(** [get_week_summary(week_label)]; [.iloc[0]] of an empty table raises
    [IndexError]. *)
Definition get_week_summary (self : processor) (week_label : option string)
  : result summary :=
  let label :=
    match week_label, current_week_data self with
    | None, Some cur =>
        match cur with
        | r :: _ => Ok (Semana r)
        | [] => Raise IndexError
        end
    | _, _ => Ok week_label
    end in
  match label with
  | Raise e => Raise e
  | Ok None => Raise ValueError
  | Ok (Some l) =>
      match dict_get (Some l) (historical_data self) with
      | None => Raise ValueError
      | Some df =>
          let t := week_totals df in
          Ok (mkSummary l
                (sum_Sent t) (sum_Delivered t) (sum_Opened t)
                (sum_Clicked t) (sum_Bounced t) (sum_Unsubscribed t)
                (guarded_ratio (sum_Delivered t) (sum_Sent t))
                (guarded_ratio (sum_Opened t) (sum_Delivered t))
                (guarded_ratio (sum_Clicked t) (sum_Delivered t))
                (guarded_ratio (sum_Bounced t) (sum_Sent t))
                (guarded_ratio (sum_Unsubscribed t) (sum_Delivered t))
                (guarded_ratio (sum_Clicked t) (sum_Opened t)))
      end
  end.

(* ===================================================================== *)
(** ** Week-over-week changes                                            *)
(* ===================================================================== *)

Definition leb_of (c : comparison) : bool :=
  match c with Gt => false | _ => true end.

(** [sort_values(['Automacao', 'Semana'])]: a stable insertion sort on the
    pair of the two columns, compared as text. *)
Fixpoint insert_sorted (m : metrics (string * string))
  (l : list (metrics (string * string))) : list (metrics (string * string)) :=
  match l with
  | [] => [m]
  | m' :: l' =>
      if leb_of (pair_compare (key m) (key m')) then m :: l
      else m' :: insert_sorted m l'
  end.

Definition sort_values (l : list (metrics (string * string)))
  : list (metrics (string * string)) :=
  fold_right insert_sorted [] l.

Fixpoint last_value (g : string) (seen : list (string * num)) : option num :=
  match seen with
  | [] => None
  | (g', v) :: seen' => if String.eqb g' g then Some v else last_value g seen'
  end.

(** One step of [pct_change]: the current value over the previous one of
    the same group, minus 1. *)
Definition pct (cur prev : num) : num := nsub (ndiv cur prev) (fin_z 1).

(** [groupby('Automacao')[col].pct_change()] on the rows in table order:
    [seen] holds the last value of every group met so far.  With [pad]
    (the forward fill that pandas applies before version 3) a missing
    value is first replaced by the last value of its group.  The first
    row of a group has no previous value: its change is NaN. *)
Fixpoint pct_change (pad : bool) (seen : list (string * num))
  (l : list (string * num)) : list num :=
  match l with
  | [] => []
  | (g, v) :: l' =>
      let prev := last_value g seen in
      let cur := if andb pad (isnan v)
                 then match prev with Some p => p | None => v end
                 else v in
      match prev with
      | Some p => pct cur p
      | None => NaN
      end :: pct_change pad ((g, cur) :: seen) l'
  end.

Record change_row : Type := mkChange {
  perf : metrics (string * string);
  Open_Rate_Change : num;
  Click_Rate_Change : num;
  CTOR_Change : num
}.

(** A change column: the grouped [pct_change] of a rate column, times 100. *)
Definition change_column (pad : bool) (col : metrics (string * string) -> num)
  (l : list (metrics (string * string))) : list num :=
  map (fun x => nmul x (fin_z 100))
      (pct_change pad [] (map (fun m => (fst (key m), col m)) l)).

Fixpoint zip_changes (l : list (metrics (string * string)))
  (o c t : list num) : list change_row :=
  match l, o, c, t with
  | m :: l', x :: o', y :: c', z :: t' =>
      mkChange m x y z :: zip_changes l' o' c' t'
  | _, _, _, _ => []
  end.

(** The table computed by [get_week_over_week_changes] from the weekly
    metrics. *)
Definition week_over_week (pad : bool) (weekly_perf : list (metrics (string * string)))
  : list change_row :=
  let sorted := sort_values weekly_perf in
  zip_changes sorted
    (change_column pad Open_Rate sorted)
    (change_column pad Click_Rate sorted)
    (change_column pad CTOR sorted).

(** [get_week_over_week_changes()] *)
Definition get_week_over_week_changes (pad : bool) (self : processor)
  : processor * result (list change_row) :=
  match get_weekly_automation_performance self with
  | (self', Raise e) => (self', Raise e)
  | (self', Ok weekly_perf) => (self', Ok (week_over_week pad weekly_perf))
  end.


(* ===================================================================== *)
(** ** Predicates of the statements and sample inputs                    *)
(* ===================================================================== *)

(** The campaign of a row has an entry in the mapping. *)
Definition mapped (mapping : list mapping_row) (r : row) : bool :=
  existsb (fun e => label_eqb (map_message_name e) (Message_name r)) mapping.

(** The rows of the merged data that belong to automation [g]. *)
Definition rows_of_automation (g : string) (merged_data : list merged_row)
  : list merged_row :=
  filter (fun r => label_eqb (Automacao r) (Some g)) merged_data.

Definition sent_of (r : merged_row) : num := Sent (merged_vol r).

(** A raw row with numeric cells: campaign, subject, sent, delivered,
    opened, clicked, bounced, unsubscribed; the rate cells hold the
    row's own ratios, as the export writes them. *)
Definition sample_raw (name subject : string) (s d o c b u : Z) : raw_row :=
  mkRaw (Some name) (Some subject)
    (mkCounts (CNum (fin_z s)) (CNum (fin_z d)) (CNum (fin_z o))
              (CNum (fin_z c)) (CNum (fin_z b)) (CNum (fin_z 0))
              (CNum (fin_z u)))
    (mkRates (CNum (ndiv (fin_z o) (fin_z d))) (CNum (ndiv (fin_z c) (fin_z d)))
             (CNum (ndiv (fin_z c) (fin_z o))) (CNum (ndiv (fin_z b) (fin_z s)))
             (CNum (fin_z 0)) (CNum (ndiv (fin_z u) (fin_z d))))
    [].

Definition sample_clock : clock := mkClock 27 2025.

(** The mapping [{A -> G1, B -> G1}]. *)
Definition sample_mapping : list mapping_row :=
  [mkMap (Some "A") (Some "G1"); mkMap (Some "B") (Some "G1")].

Definition with_mapping : processor :=
  fst (load_automation_mapping init sample_mapping).

(** Two weeks of 60 mails each for campaign [A]; campaign [C] has no
    mapping entry. *)
Definition two_small_weeks : processor :=
  let p1 := fst (load_weekly_data with_mapping "w1.csv"
                   [sample_raw "A" "s1" 60 58 20 5 2 0;
                    sample_raw "C" "s3" 500 480 100 20 20 1]
                   (Some "2025-06-30 a 2025-07-06") sample_clock) in
  fst (load_weekly_data p1 "w2.csv"
         [sample_raw "A" "s1" 60 59 10 5 1 0]
         (Some "2025-07-07 a 2025-07-13") sample_clock).

Definition two_small_weeks_table : list (metrics string) :=
  match snd (get_automation_performance two_small_weeks 100) with
  | Ok out => out
  | Raise _ => []
  end.

(** The mapping entries a row is joined with. *)
Definition matches (mapping : list mapping_row) (r : row) : list mapping_row :=
  filter (fun e => label_eqb (map_message_name e) (Message_name r)) mapping.

(** The end-to-end scenario: the mapping [{A -> G1, B -> G1}] and one
    week with the rows [A] (100, 98, 25, 5) and [B] (150, 148, 30, 8). *)
Definition scenario (file_path label : string) (now : clock) (bA uA bB uB : Z)
  : processor :=
  fst (load_weekly_data with_mapping file_path
         [sample_raw "A" "sa" 100 98 25 5 bA uA;
          sample_raw "B" "sb" 150 148 30 8 bB uB]
         (Some label) now).

(** One week in which the 98 mails delivered for campaign [A] were not
    opened. *)
Definition no_opens : processor :=
  fst (load_weekly_data with_mapping "Automation messages sent_2025-06-302025-07-06.csv"
         [sample_raw "A" "s1" 100 98 0 0 2 0] None sample_clock).

(** A weekly export whose ['Open rate'] cell is the text [abc%]. *)
Definition bad_percent_row : raw_row :=
  mkRaw (Some "A") (Some "s1")
    (mkCounts (CNum (fin_z 100)) (CNum (fin_z 98)) (CNum (fin_z 25))
              (CNum (fin_z 5)) (CNum (fin_z 2)) (CNum (fin_z 0))
              (CNum (fin_z 0)))
    (mkRates (CStr "abc%") (CStr "5.1%") (CStr "20%") (CStr "2%")
             (CStr "0%") (CStr "0%"))
    [].

(** The path of the temporary file under which an uploaded export is
    saved before it is loaded. *)
Definition upload_path : string := "/tmp/tmpk3v9x2qa.csv".

(** The position of a week label in the list of the labels of the store,
    in insertion order. *)
Fixpoint week_index (weeks : list (option string)) (w : string) : nat :=
  match weeks with
  | [] => 0
  | k :: weeks' => if label_eqb k (Some w) then 0 else S (week_index weeks' w)
  end.

(** The rows (automation, week) of a table follow the insertion order of
    the weeks inside every automation: a row never comes before a row of
    the same automation whose week was inserted earlier. *)
Fixpoint chronological (weeks : list (option string)) (l : list (string * string))
  : bool :=
  match l with
  | [] => true
  | (a, w) :: l' =>
      andb (forallb (fun k => if String.eqb (fst k) a
                              then (week_index weeks w <=? week_index weeks (snd k))%nat
                              else true) l')
           (chronological weeks l')
  end.

(** [a] is not after [b] in the order of [sort_values]: by automation,
    then by week label, compared as text. *)
Definition key_le (a b : string * string) : Prop := pair_compare a b <> Gt.

Definition change_keys (out : list change_row) : list (string * string) :=
  map (fun c => key (perf c)) out.

(** Campaign [A] loaded for the week labelled [Week 9], then for the week
    labelled [Week 10]. *)
Definition week_9_then_10 : processor :=
  let p1 := fst (load_weekly_data with_mapping upload_path
                   [sample_raw "A" "s1" 100 98 20 5 2 0]
                   (Some "Week 9") sample_clock) in
  fst (load_weekly_data p1 upload_path
         [sample_raw "A" "s1" 100 100 25 5 0 0]
         (Some "Week 10") sample_clock).

Definition week_9_then_10_changes (pad : bool) : list change_row :=
  match snd (get_week_over_week_changes pad week_9_then_10) with
  | Ok out => out
  | Raise _ => []
  end.

(** The automation of a weekly row. *)
Definition automation_of (m : metrics (string * string)) : string := fst (key m).

(** The change in percent from the finite value [p] to the finite value
    [c]: [(c - p) / p * 100] when [p] is not zero; from zero, an infinity
    with the sign of [c], or NaN when [c] is zero too. *)
Definition change_of (p c : Q) : num :=
  match qsign p with
  | Eq => signed_inf (qsign c)
  | _ => Fin (Qred ((c - p) / p * 100)%Q)
  end.

(** The week [no_opens] followed by a week in which 25 of the 100 mails
    delivered for campaign [A] were opened and 5 clicked. *)
Definition opens_after_none : processor :=
  fst (load_weekly_data no_opens "Automation messages sent_2025-07-072025-07-13.csv"
         [sample_raw "A" "s1" 100 100 25 5 0 0] None sample_clock).

Definition opens_after_none_changes (pad : bool) : list change_row :=
  match snd (get_week_over_week_changes pad opens_after_none) with
  | Ok out => out
  | Raise _ => []
  end.

(** A rate cell holds a number between 0 and 1, or is missing. *)
Definition unit_or_missing (c : cell) : Prop :=
  match c with
  | CNum NaN => True
  | CNum x => in_unit x
  | CStr _ => False
  end.

(** A percent between 0 and 100, or NaN. *)
Definition percent_in_range (x : num) : Prop :=
  match x with
  | NaN => True
  | Fin q => (0 <= q)%Q /\ (q <= 100)%Q
  | _ => False
  end.

(** What the percent conversion makes of a rate cell [c]: a text [p%]
    becomes the number [p / 100], which is between 0 and 1 (or missing)
    when [p] is between 0 and 100 (or NaN); every other cell is left as it
    is, a number as that number and a text without [%] as that text.  The latter is what [pd.read_csv] gives for the numeric cells of
    a column that mixes both forms: the column is a text column and its
    cell 0.3 is the text [0.3]. *)
Definition normalized (c c' : cell) : Prop :=
  match c with
  | CNum x => c' = CNum x
  | CStr s =>
      if endswith s "%" then
        exists x, py_float (strip_char "%" s) = Some x
                  /\ c' = CNum (ndiv x (fin_z 100))
                  /\ (percent_in_range x -> unit_or_missing c')
      else c' = CStr s
  end.

(** A rate cell on which the percent conversion does not raise: when it is
    a text ending in [%], the text before it is a number. *)
Definition readable (c : cell) : Prop :=
  forall s, c = CStr s -> endswith s "%" = true ->
            py_float (strip_char "%" s) <> None.

Definition all_rates (P : cell -> Prop) (r : rates) : Prop :=
  forall col, P (get_rate col r).

(** The state of a row inside the loop over the percent columns: the cells
    of the columns [done] are the converted cells of the row [raw] read
    from the file, the others are still those of [raw]. *)
Definition converted (done : list rate_col) (raw r : raw_row) : Prop :=
  forall c,
    (In c done -> _convert_percent_to_float (get_rate c (raw_rates raw))
                  = Ok (get_rate c (raw_rates r)))
    /\ (~ In c done -> get_rate c (raw_rates r) = get_rate c (raw_rates raw)).

(** An export with the open rate written as the number 25.5 (percent
    units) and the CTOR written as the text [150%]. *)
Definition percent_units_row : raw_row :=
  mkRaw (Some "A") (Some "s1")
    (mkCounts (CNum (fin_z 200)) (CNum (fin_z 200)) (CNum (fin_z 51))
              (CNum (fin_z 60)) (CNum (fin_z 0)) (CNum (fin_z 0))
              (CNum (fin_z 0)))
    (mkRates (CNum (Fin (51 # 2))) (CStr "30%") (CStr "150%") (CStr "0%")
             (CStr "0%") (CNum (fin_z 0)))
    [].

(** An export whose open-rate column mixes both forms, [25.5%] in the
    first row and 0.3 in the second: [pd.read_csv] reads the column as
    text, so that the second cell is the text [0.3].  The click-rate
    column is all numbers, the bounce-rate column has a missing cell. *)
Definition mixed_column : list raw_row :=
  [mkRaw (Some "A") (Some "s1")
     (mkCounts (CNum (fin_z 200)) (CNum (fin_z 200)) (CNum (fin_z 51))
               (CNum (fin_z 60)) (CNum (fin_z 0)) (CNum (fin_z 0))
               (CNum (fin_z 0)))
     (mkRates (CStr "25.5%") (CNum (Fin (3 # 10))) (CStr "100%") (CNum NaN)
              (CStr "0%") (CNum (fin_z 0)))
     [];
   mkRaw (Some "B") (Some "s2")
     (mkCounts (CNum (fin_z 100)) (CNum (fin_z 100)) (CNum (fin_z 30))
               (CNum (fin_z 10)) (CNum (fin_z 0)) (CNum (fin_z 0))
               (CNum (fin_z 0)))
     (mkRates (CStr "0.3") (CNum (Fin (1 # 10))) (CStr "50%") (CStr "0%")
              (CStr "0%") (CNum (fin_z 0)))
     []].

(* ===================================================================== *)
(** ** Column names, summaries of all weeks, the files on disk           *)
(* ===================================================================== *)

(** The double quote character. *)
Definition quote_char : ascii := "034"%char.

(** [col.strip().replace(quote, '')] of [_clean_column_names]: the white
    space around the name is removed first, then every double quote. *)
Definition clean_column_name (col : string) : string :=
  string_of_list_ascii
    (filter (fun a => negb (Ascii.eqb a quote_char))
            (strip_space (list_ascii_of_string col))).

(** [_clean_column_names(df)] on the list of the column names. *)
Definition _clean_column_names (columns : list string) : list string :=
  map clean_column_name columns.

(** [get_available_weeks()] *)
Definition get_available_weeks (self : processor) : list (option string) :=
  metadata_weeks self.

(** [get_all_weeks_summary()]: one summary per label of the metadata, in
    their order; the first exception leaves the loop. *)
Fixpoint summaries_of (self : processor) (weeks : list (option string))
  : result (list summary) :=
  match weeks with
  | [] => Ok []
  | week :: weeks' =>
      match get_week_summary self week with
      | Raise e => Raise e
      | Ok s =>
          match summaries_of self weeks' with
          | Raise e => Raise e
          | Ok ss => Ok (s :: ss)
          end
      end
  end.

Definition get_all_weeks_summary (self : processor) : result (list summary) :=
  summaries_of self (metadata_weeks self).

(** [s.replace(old, new)] for one-character arguments. *)
Fixpoint replace_char (old new : ascii) (s : string) : string :=
  match s with
  | EmptyString => EmptyString
  | String c s' =>
      String (if Ascii.eqb c old then new else c) (replace_char old new s')
  end.

(** [week_label.replace(' ', '_').replace('-', '_').replace('/', '_')] *)
Definition storage_key (week_label : string) : string :=
  replace_char "/" "_" (replace_char "-" "_" (replace_char " " "_" week_label)).

(** The name of the file of a week inside the data directory. *)
Definition week_file_name (week_label : string) : string :=
  "week_" ++ storage_key week_label ++ ".pkl".

Definition starts_with_slash (s : string) : bool :=
  match s with
  | String c _ => Ascii.eqb c "/"
  | EmptyString => false
  end.

(** [os.path.join(a, b)] on a POSIX system. *)
Definition path_join (a b : string) : string :=
  if starts_with_slash b then b
  else if orb (String.eqb a "") (endswith a "/") then a ++ b
  else a ++ "/" ++ b.

(** [os.path.join(self.data_dir, f"week_{...}.pkl")] *)
Definition week_file (data_dir week_label : string) : string :=
  path_join data_dir (week_file_name week_label).

(** The files of the data directory: [metadata.json] (its list of weeks),
    [automation_mapping.pkl] and the week files, by name.  A file that
    does not exist is [None]; a pickle or JSON file read back is the
    value written. *)
Record disk : Type := mkDisk {
  metadata_json : option (list (option string));
  mapping_pkl : option (list mapping_row);
  week_pkl : string -> option table
}.

Definition empty_disk : disk := mkDisk None None (fun _ => None).

Definition write_file {V : Type} (name : string) (v : V)
  (files : string -> option V) : string -> option V :=
  fun n => if String.eqb n name then Some v else files n.

(** [EmailDataProcessor(data_dir)]: the metadata are read from
    [metadata.json] when the file exists. *)
Definition new_processor (d : disk) : processor :=
  mkProcessor [] None None None
    (match metadata_json d with Some weeks => weeks | None => [] end).

(** [load_weekly_data] with what it writes: [metadata.json] once the
    object is updated, then the week file, whose name needs a label. *)
Definition load_weekly_data_io (d : disk) (self : processor) (file_path : string)
  (csv : list raw_row) (week_label : option string) (now : clock)
  : disk * processor * result table :=
  match convert_percent_columns percent_columns csv with
  | Raise e => (d, self, Raise e)
  | Ok df0 =>
      let label := resolve_week_label file_path week_label now in
      let df := map (process_row label) df0 in
      let self' :=
        mkProcessor (dict_set label df (historical_data self))
                    (mapping_data self)
                    (Some df)
                    (all_weeks_data self)
                    (if label_in label (metadata_weeks self)
                     then metadata_weeks self
                     else (metadata_weeks self ++ [label])%list) in
      let d1 := mkDisk (Some (metadata_weeks self')) (mapping_pkl d) (week_pkl d) in
      match label with
      | None => (d1, self', Raise AttributeError)
      | Some l =>
          (mkDisk (metadata_json d1) (mapping_pkl d1)
                  (write_file (week_file_name l) df (week_pkl d1)),
           self', Ok df)
      end
  end.

(** [load_automation_mapping] with what it writes. *)
Definition load_automation_mapping_io (d : disk) (self : processor)
  (csv : list mapping_row) : disk * processor * list mapping_row :=
  let self' := fst (load_automation_mapping self csv) in
  (mkDisk (Some (metadata_weeks self')) (Some csv) (week_pkl d), self', csv).

(** The loop of [load_saved_data] over the weeks of the metadata: a week
    whose file exists is put in the dict, a missing file clears
    [success]; [week.replace] raises [AttributeError] on a [None] label. *)
Fixpoint load_weeks (d : disk) (weeks : list (option string))
  (hist : list (option string * table)) (success : bool)
  : list (option string * table) * result bool :=
  match weeks with
  | [] => (hist, Ok success)
  | None :: _ => (hist, Raise AttributeError)
  | Some l :: weeks' =>
      match week_pkl d (week_file_name l) with
      | Some t => load_weeks d weeks' (dict_set (Some l) t hist) success
      | None => load_weeks d weeks' hist false
      end
  end.

(** [load_saved_data()] *)
Definition load_saved_data (self : processor) (d : disk)
  : processor * result bool :=
  let mapping := match mapping_pkl d with
                 | Some m => Some m
                 | None => mapping_data self
                 end in
  let success := match mapping_pkl d with Some _ => true | None => false end in
  match load_weeks d (metadata_weeks self) (historical_data self) success with
  | (hist, Raise e) =>
      (mkProcessor hist mapping (current_week_data self) (all_weeks_data self)
                   (metadata_weeks self), Raise e)
  | (hist, Ok success') =>
      let current :=
        match metadata_weeks self with
        | [] => current_week_data self
        | w :: ws => dict_get (last ws w) hist
        end in
      let self1 := mkProcessor hist mapping current (all_weeks_data self)
                               (metadata_weeks self) in
      match hist with
      | [] => (self1, Ok success')
      | _ => (fst (combine_all_weeks self1), Ok success')
      end
  end.

(** A call of a method that can change the processor. *)
Inductive call : Type :=
| LoadWeekly (file_path : string) (csv : list raw_row)
             (week_label : option string) (now : clock)
| LoadMapping (csv : list mapping_row)
| CombineAllWeeks
| AutomationPerformance (min_emails : Z)
| WeeklyAutomationPerformance
| SubjectPerformance (min_emails : Z)
| WeekOverWeekChanges (pad : bool).

(** The processor after a call, whatever its outcome. *)
Definition after (self : processor) (c : call) : processor :=
  match c with
  | LoadWeekly file_path csv week_label now =>
      fst (load_weekly_data self file_path csv week_label now)
  | LoadMapping csv => fst (load_automation_mapping self csv)
  | CombineAllWeeks => fst (combine_all_weeks self)
  | AutomationPerformance min_emails => fst (get_automation_performance self min_emails)
  | WeeklyAutomationPerformance => fst (get_weekly_automation_performance self)
  | SubjectPerformance min_emails => fst (analyze_subject_performance self min_emails)
  | WeekOverWeekChanges pad => fst (get_week_over_week_changes pad self)
  end.

(** The processor after a sequence of calls on a new object. *)
Definition session (calls : list call) : processor := fold_left after calls init.

(** The keys of the store are the weeks of the metadata, each once. *)
Definition store_consistent (self : processor) : Prop :=
  map fst (historical_data self) = metadata_weeks self
  /\ NoDup (metadata_weeks self).

(** Every row of a stored table carries the label it is stored under. *)
Definition store_tagged (self : processor) : Prop :=
  forall k t r, In (k, t) (historical_data self) -> In r t -> Semana r = k.

(** A volume cell is a whole number, not negative, or is missing. *)
Definition whole_or_missing (x : num) : Prop :=
  match x with
  | NaN => True
  | Fin q => exists n : Z, (0 <= n)%Z /\ q = inject_Z n
  | _ => False
  end.

Definition whole_counts (c : counts num) : Prop :=
  whole_or_missing (Sent c) /\ whole_or_missing (Delivered c) /\
  whole_or_missing (Opened c) /\ whole_or_missing (Clicked c) /\
  whole_or_missing (Bounced c) /\ whole_or_missing (Unsubscribed c).

(** A total below 2^53.  Up to there every whole number is a [float64]
    and an [int64], so that a sum of whole numbers, none negative, is
    exact in both when it stays below. *)
Definition exact_total (x : num) : Prop := ngt (fin_z (2 ^ 53)) x = true.

Definition exact_totals (t : totals) : Prop :=
  exact_total (sum_Sent t) /\ exact_total (sum_Delivered t) /\
  exact_total (sum_Opened t) /\ exact_total (sum_Clicked t) /\
  exact_total (sum_Bounced t) /\ exact_total (sum_Unsubscribed t).

(** A volume cell is a finite number or is missing. *)
Definition finite_or_missing (x : num) : Prop :=
  match x with
  | NaN | Fin _ => True
  | _ => False
  end.

Definition is_finite (x : num) : Prop :=
  match x with Fin _ => True | _ => False end.

Definition finite_counts (c : counts num) : Prop :=
  finite_or_missing (Sent c) /\ finite_or_missing (Delivered c) /\
  finite_or_missing (Opened c) /\ finite_or_missing (Clicked c) /\
  finite_or_missing (Bounced c) /\ finite_or_missing (Unsubscribed c).

(** The processor and the files agree: the metadata file lists the weeks
    of the object, every stored week has a label and its file holds its
    table, and the mapping file holds the mapping. *)
Definition in_sync (self : processor) (d : disk) : Prop :=
  store_consistent self
  /\ match metadata_json d with Some weeks => weeks | None => [] end
     = metadata_weeks self
  /\ (forall k t, In (k, t) (historical_data self) ->
        exists l, k = Some l /\ week_pkl d (week_file_name l) = Some t)
  /\ mapping_pkl d = mapping_data self.

(** Text order of two pairs (automation, week label). *)
Definition key_lt (a b : string * string) : Prop := pair_compare a b = Lt.

(** The files after the mapping and the two weeks of [two_small_weeks]
    were loaded on an empty data directory. *)
Definition two_small_weeks_disk : disk :=
  let '(d0, p0, _) := load_automation_mapping_io empty_disk init sample_mapping in
  let '(d1, p1, _) := load_weekly_data_io d0 p0 "w1.csv"
                        [sample_raw "A" "s1" 60 58 20 5 2 0;
                         sample_raw "C" "s3" 500 480 100 20 20 1]
                        (Some "2025-06-30 a 2025-07-06") sample_clock in
  fst (fst (load_weekly_data_io d1 p1 "w2.csv"
              [sample_raw "A" "s1" 60 59 10 5 1 0]
              (Some "2025-07-07 a 2025-07-13") sample_clock)).

(** Every week of the list has a label and a file. *)
Definition week_files_exist (d : disk) (weeks : list (option string)) : bool :=
  forallb (fun w => match w with
                    | Some l => match week_pkl d (week_file_name l) with
                                | Some _ => true
                                | None => false
                                end
                    | None => false
                    end) weeks.

(** The text is ASCII: every byte is a character of Python's [str]. *)
Definition is_ascii (s : string) : bool :=
  forallb (fun c => (nat_of_ascii c <? 128)%nat) (list_ascii_of_string s).

(** The volumes of a row are whole numbers and nested: clicked <= opened
    <= delivered <= sent, none negative. *)
Definition nested_counts (c : counts num) : Prop :=
  exists s d o k : Z,
    Sent c = fin_z s /\ Delivered c = fin_z d /\ Opened c = fin_z o
    /\ Clicked c = fin_z k
    /\ (0 <= k)%Z /\ (k <= o)%Z /\ (o <= d)%Z /\ (d <= s)%Z.

(** The character of a decimal digit and the text of a list of digits. *)
Definition digit_char (d : nat) : ascii := ascii_of_nat (48 + d).

Definition digits_text (ds : list nat) : string :=
  string_of_list_ascii (map digit_char ds).

(** The number written with the digits [ip] before the point and [fp]
    after it. *)
Definition decimal_value (ip fp : list nat) : Q :=
  (inject_Z (Z_of_digits (map Z.of_nat (ip ++ fp)))
   / inject_Z (10 ^ Z.of_nat (List.length fp)))%Q.

(* ===================================================================== *)
(** * Properties                                                         *)
(* ===================================================================== *)

(** ** The order on text keys *)

Lemma str_compare_eq a b : str_compare a b = Eq -> a = b.
Proof.
  unfold str_compare. intros H.
  destruct (String_as_OT.compare_spec a b); congruence.
Qed.

Lemma str_compare_refl a : str_compare a a = Eq.
Proof.
  unfold str_compare.
  destruct (String_as_OT.compare_spec a a) as [_|H|H]; trivial;
    exfalso; revert H; apply (StrictOrder_Irreflexive (R := String_as_OT.lt)).
Qed.

Lemma str_compare_gt_lt a b : str_compare a b = Gt -> str_compare b a = Lt.
Proof.
  unfold str_compare. intros H.
  destruct (String_as_OT.compare_spec a b) as [E|E|E]; try discriminate.
  exact E.
Qed.

Lemma str_compare_lt_trans a b c :
  str_compare a b = Lt -> str_compare b c = Lt -> str_compare a c = Lt.
Proof.
  unfold str_compare.
  apply (StrictOrder_Transitive (R := String_as_OT.lt)).
Qed.

Lemma pair_compare_eq a b : pair_compare a b = Eq -> a = b.
Proof.
  destruct a as [a1 a2], b as [b1 b2]. unfold pair_compare. simpl.
  destruct (str_compare a1 b1) eqn:E1; try discriminate.
  intros E2. apply str_compare_eq in E1, E2. congruence.
Qed.

Lemma pair_compare_refl a : pair_compare a a = Eq.
Proof.
  destruct a as [a1 a2]. unfold pair_compare. simpl.
  now rewrite !str_compare_refl.
Qed.

Lemma pair_compare_gt_lt a b : pair_compare a b = Gt -> pair_compare b a = Lt.
Proof.
  destruct a as [a1 a2], b as [b1 b2]. unfold pair_compare. simpl.
  destruct (str_compare a1 b1) eqn:E1; try discriminate.
  - apply str_compare_eq in E1. subst b1. rewrite str_compare_refl.
    apply str_compare_gt_lt.
  - intros _. now rewrite (str_compare_gt_lt _ _ E1).
Qed.

Lemma pair_compare_lt_trans a b c :
  pair_compare a b = Lt -> pair_compare b c = Lt -> pair_compare a c = Lt.
Proof.
  destruct a as [a1 a2], b as [b1 b2], c as [c1 c2]. unfold pair_compare. simpl.
  destruct (str_compare a1 b1) eqn:E1; try discriminate.
  - apply str_compare_eq in E1. subst b1.
    destruct (str_compare a1 c1) eqn:E2; try discriminate; trivial.
    apply str_compare_lt_trans.
  - intros _.
    destruct (str_compare b1 c1) eqn:E2; try discriminate.
    + apply str_compare_eq in E2. subst c1. now rewrite E1.
    + intros _. now rewrite (str_compare_lt_trans _ _ _ E1 E2).
Qed.

(** ** Grouping *)

Section GroupByFacts.
Context {R K : Type}.
Variable cmp : K -> K -> comparison.
Variable key_of : R -> option K.
Variable vol_of : R -> counts num.
Hypothesis cmp_eq : forall a b, cmp a b = Eq -> a = b.
Hypothesis cmp_refl : forall a, cmp a a = Eq.

Lemma insert_key_in k ks : In k (insert_key cmp k ks).
Proof.
  induction ks as [|k' ks IH]; simpl; auto.
  destruct (cmp k k') eqn:E; simpl; auto.
  apply cmp_eq in E. subst. simpl. auto.
Qed.

Lemma insert_key_keeps k x ks : In x ks -> In x (insert_key cmp k ks).
Proof.
  induction ks as [|k' ks IH]; simpl; [tauto|].
  intros [H|H]; destruct (cmp k k'); simpl; auto.
Qed.

Lemma insert_key_from k x ks : In x (insert_key cmp k ks) -> x = k \/ In x ks.
Proof.
  induction ks as [|k' ks IH]; simpl.
  - intros [H|[]]; auto.
  - destruct (cmp k k'); simpl; intros H; auto.
    + destruct H as [H|H]; auto.
    + destruct H as [H|H]; auto. apply IH in H. tauto.
Qed.

Lemma collect_keys_keeps rows : forall ks x, In x ks -> In x (collect_keys cmp key_of ks rows).
Proof.
  induction rows as [|r rows IH]; simpl; intros ks x H; trivial.
  apply IH. destruct (key_of r); trivial. now apply insert_key_keeps.
Qed.

Lemma collect_keys_in rows : forall ks r k,
  In r rows -> key_of r = Some k -> In k (collect_keys cmp key_of ks rows).
Proof.
  induction rows as [|r' rows IH]; simpl; intros ks r k [].
  - subst r'. intros ->. apply collect_keys_keeps, insert_key_in.
  - intros Hk. now apply (IH _ r).
Qed.

(** Every key met in the table is a group. *)
Lemma group_keys_in rows r k :
  In r rows -> key_of r = Some k -> In k (group_keys cmp key_of rows).
Proof. apply collect_keys_in. Qed.

Lemma in_group_iff k r : in_group cmp key_of k r = true <-> key_of r = Some k.
Proof.
  unfold in_group. destruct (key_of r) as [k'|]; split; try discriminate.
  - destruct (cmp k' k) eqn:E; try discriminate. intros _.
    f_equal. now apply cmp_eq.
  - intros [= ->]. now rewrite cmp_refl.
Qed.

(** A group is in the aggregated table, with the sums of its rows. *)
Lemma groupby_sum_in rows r k :
  In r rows -> key_of r = Some k ->
  In (k, sum_group vol_of (filter (in_group cmp key_of k) rows))
     (groupby_sum cmp key_of vol_of rows).
Proof.
  intros Hr Hk. unfold groupby_sum.
  apply (in_map (fun k => (k, sum_group vol_of (filter (in_group cmp key_of k) rows)))).
  now apply (group_keys_in rows r).
Qed.

Lemma collect_keys_filter (p : R -> bool) rows :
  (forall r, In r rows -> p r = false -> key_of r = None) ->
  forall ks, collect_keys cmp key_of ks (filter p rows) = collect_keys cmp key_of ks rows.
Proof.
  induction rows as [|r rows IH]; simpl; intros Hp ks; trivial.
  assert (Hp' : forall r', In r' rows -> p r' = false -> key_of r' = None)
    by (intros r' Hr'; apply Hp; now right).
  destruct (p r) eqn:E; simpl.
  - now apply IH.
  - rewrite (Hp r (or_introl eq_refl) E). now apply IH.
Qed.

Lemma filter_in_group_filter (p : R -> bool) k rows :
  (forall r, In r rows -> p r = false -> key_of r = None) ->
  filter (in_group cmp key_of k) (filter p rows)
  = filter (in_group cmp key_of k) rows.
Proof.
  induction rows as [|r rows IH]; simpl; intros Hp; trivial.
  assert (Hp' : forall r', In r' rows -> p r' = false -> key_of r' = None)
    by (intros r' Hr'; apply Hp; now right).
  destruct (p r) eqn:E; simpl.
  - now rewrite IH.
  - unfold in_group at 2. rewrite (Hp r (or_introl eq_refl) E). now apply IH.
Qed.

(** The sums of a group are those of the rows with its key. *)
Lemma groupby_sum_from rows k t :
  In (k, t) (groupby_sum cmp key_of vol_of rows) ->
  t = sum_group vol_of (filter (in_group cmp key_of k) rows).
Proof.
  unfold groupby_sum. intros H. apply in_map_iff in H.
  destruct H as (k' & [= <- <-] & _). reflexivity.
Qed.

Lemma collect_keys_from rows : forall ks x,
  In x (collect_keys cmp key_of ks rows) ->
  In x ks \/ exists r, In r rows /\ key_of r = Some x.
Proof.
  induction rows as [|r rows IH]; simpl; intros ks x H; [now left|].
  apply IH in H. destruct H as [H|(r' & Hr & Hk)].
  - destruct (key_of r) as [k|] eqn:E; [|now left].
    apply insert_key_from in H. destruct H as [->|H]; [|now left].
    right. exists r. split; [now left|assumption].
  - right. exists r'. split; [now right|assumption].
Qed.

(** Every group of the aggregated table is the key of a row. *)
Lemma groupby_sum_key rows k t :
  In (k, t) (groupby_sum cmp key_of vol_of rows) ->
  exists r, In r rows /\ key_of r = Some k.
Proof.
  unfold groupby_sum, group_keys. intros H. apply in_map_iff in H.
  destruct H as (k' & [= <- <-] & H).
  apply collect_keys_from in H. destruct H as [[]|H]. exact H.
Qed.

(** Rows without a key can be removed before grouping. *)
Lemma groupby_sum_filter (p : R -> bool) rows :
  (forall r, In r rows -> p r = false -> key_of r = None) ->
  groupby_sum cmp key_of vol_of (filter p rows)
  = groupby_sum cmp key_of vol_of rows.
Proof.
  intros Hp. unfold groupby_sum, group_keys.
  rewrite collect_keys_filter by assumption.
  apply map_ext. intros k. now rewrite filter_in_group_filter.
Qed.
End GroupByFacts.

(** ** Reading the outcome of the aggregation methods *)

Lemma ensure_combined_ok self self' all_data :
  ensure_combined self = (self', Ok all_data) ->
  all_weeks_data self' = Some all_data /\ mapping_data self' = mapping_data self.
Proof.
  unfold ensure_combined, combine_all_weeks.
  destruct (all_weeks_data self) eqn:E.
  - intros [= <- <-]. auto.
  - destruct (historical_data self); [discriminate|].
    intros [= <- <-]. simpl. auto.
Qed.

Lemma get_automation_performance_ok self min_emails self' out :
  get_automation_performance self min_emails = (self', Ok out) ->
  exists all_data mapping,
    all_weeks_data self' = Some all_data /\ mapping_data self' = Some mapping /\
    out = automation_metrics (merge_left all_data mapping) min_emails.
Proof.
  unfold get_automation_performance, merge_with_mapping.
  destruct (ensure_combined self) as [s1 [all_data|e]] eqn:E; [|discriminate].
  apply ensure_combined_ok in E. destruct E as [Ha Hm].
  destruct (mapping_data s1) as [m|] eqn:Em; [|discriminate].
  intros [= <- <-]. exists all_data, m. auto.
Qed.

Lemma get_weekly_automation_performance_ok self self' out :
  get_weekly_automation_performance self = (self', Ok out) ->
  exists all_data mapping,
    all_weeks_data self' = Some all_data /\ mapping_data self' = Some mapping /\
    out = weekly_metrics (merge_left all_data mapping).
Proof.
  unfold get_weekly_automation_performance, merge_with_mapping.
  destruct (ensure_combined self) as [s1 [all_data|e]] eqn:E; [|discriminate].
  apply ensure_combined_ok in E. destruct E as [Ha Hm].
  destruct (mapping_data s1) as [m|] eqn:Em; [|discriminate].
  intros [= <- <-]. exists all_data, m. auto.
Qed.

Lemma label_eqb_eq a b : label_eqb a b = true <-> a = b.
Proof.
  destruct a as [a|], b as [b|]; simpl; split; try discriminate; trivial.
  - intros H. apply String.eqb_eq in H. now subst.
  - intros [= ->]. apply String.eqb_refl.
Qed.

Lemma rows_of_automation_in_group g merged_data :
  rows_of_automation g merged_data
  = filter (in_group str_compare automation_key g) merged_data.
Proof.
  unfold rows_of_automation. apply filter_ext. intros r.
  destruct (label_eqb (Automacao r) (Some g)) eqn:E.
  - symmetry. apply (in_group_iff str_compare automation_key str_compare_eq str_compare_refl).
    now apply label_eqb_eq.
  - destruct (in_group str_compare automation_key g r) eqn:E'; trivial.
    apply (in_group_iff str_compare automation_key str_compare_eq str_compare_refl) in E'.
    apply label_eqb_eq in E'. unfold automation_key in E'. congruence.
Qed.

(** ** The volume filter comes after the sums *)

(** C6: when [get_automation_performance] returns a table, the volume
    filter is applied to the sums, not to the single rows.  An automation
    that has a row in the merged data and whose sum of ['Sent'] over all
    its rows (all weeks together) is at least [min_emails] is in the table,
    with that sum; and every row of the table is an automation that has
    rows in the merged data, carries the sum of ['Sent'] over them, and
    that sum is at least [min_emails]: an automation whose sum is below
    [min_emails] is not in the table. *)
Theorem min_emails_filter_after_sum self min_emails self' out all_data mapping g :
  get_automation_performance self min_emails = (self', Ok out) ->
  all_weeks_data self' = Some all_data ->
  mapping_data self' = Some mapping ->
  (rows_of_automation g (merge_left all_data mapping) <> [] ->
   nge (nsum (map sent_of (rows_of_automation g (merge_left all_data mapping))))
       (fin_z min_emails) = true ->
   exists m, In m out /\ key m = g /\
             sum_Sent (sums m)
             = nsum (map sent_of (rows_of_automation g (merge_left all_data mapping))))
  /\ (forall m, In m out -> key m = g ->
        rows_of_automation g (merge_left all_data mapping) <> []
        /\ sum_Sent (sums m)
           = nsum (map sent_of (rows_of_automation g (merge_left all_data mapping)))
        /\ nge (nsum (map sent_of (rows_of_automation g (merge_left all_data mapping))))
               (fin_z min_emails) = true).
Proof.
  intros Hrun Ha Hm.
  apply get_automation_performance_ok in Hrun.
  destruct Hrun as (all' & m' & Ha' & Hm' & ->).
  assert (all' = all_data) by congruence. assert (m' = mapping) by congruence.
  subst all' m'. clear Ha' Hm'.
  set (merged := merge_left all_data mapping) in *.
  rewrite rows_of_automation_in_group in *.
  split.
  - intros Hne Hge.
    destruct (filter (in_group str_compare automation_key g) merged) as [|r rs] eqn:Er;
      [congruence|].
    assert (Hr : In r (filter (in_group str_compare automation_key g) merged))
      by (rewrite Er; now left).
    apply filter_In in Hr. destruct Hr as [Hin Hg].
    apply (in_group_iff str_compare automation_key str_compare_eq str_compare_refl) in Hg.
    pose proof (groupby_sum_in str_compare automation_key merged_vol
                  str_compare_eq str_compare_refl merged r g Hin Hg) as Hgrp.
    rewrite Er in Hgrp.
    exists (add_rates (g, sum_group merged_vol (r :: rs))).
    split; [|split]; try reflexivity.
    unfold automation_metrics, filter_min_emails. apply filter_In. split.
    + now apply (in_map add_rates).
    + exact Hge.
  - intros m Hin Hkey.
    unfold automation_metrics, filter_min_emails in Hin.
    apply filter_In in Hin. destruct Hin as [Hin Hge].
    apply in_map_iff in Hin. destruct Hin as ([k t] & <- & Hin).
    cbn [add_rates key fst snd sums] in *. subst k.
    pose proof (groupby_sum_key str_compare automation_key merged_vol merged g t Hin)
      as (r & Hr & Hk).
    apply groupby_sum_from in Hin. subst t.
    cbn [sum_group sum_Sent] in *.
    split; [|split].
    + intros E.
      assert (Hf : In r (filter (in_group str_compare automation_key g) merged)).
      { apply filter_In. split; trivial.
        now apply (in_group_iff str_compare automation_key
                     str_compare_eq str_compare_refl). }
      rewrite E in Hf. destruct Hf.
    + reflexivity.
    + exact Hge.
Qed.

Lemma min_emails_filter_after_sum_witness :
  nge (fin_z 60) (fin_z 100) = false
  /\ (exists m, In m two_small_weeks_table /\ key m = "G1" /\
                sum_Sent (sums m) = fin_z 120)
  /\ (forall out, snd (get_automation_performance two_small_weeks 121) = Ok out ->
                  forall m, In m out -> key m <> "G1").
Proof.
  split; [reflexivity|]. split.
  - apply (min_emails_filter_after_sum two_small_weeks 100
             (fst (get_automation_performance two_small_weeks 100))
             two_small_weeks_table
             (List.concat (map snd (historical_data two_small_weeks)))
             sample_mapping "G1").
    + vm_compute. reflexivity.
    + vm_compute. reflexivity.
    + vm_compute. reflexivity.
    + vm_compute. discriminate.
    + vm_compute. reflexivity.
  - intros out Hout m Hin Hkey.
    assert (Hbelow :
      nge (nsum (map sent_of
                   (rows_of_automation "G1"
                      (merge_left (List.concat (map snd (historical_data two_small_weeks)))
                                  sample_mapping))))
          (fin_z 121) = false) by (vm_compute; reflexivity).
    rewrite (proj2 (proj2 (proj2
               (min_emails_filter_after_sum two_small_weeks 121
                  (fst (get_automation_performance two_small_weeks 121)) out
                  (List.concat (map snd (historical_data two_small_weeks)))
                  sample_mapping "G1"
                  ltac:(rewrite (surjective_pairing
                                   (get_automation_performance two_small_weeks 121));
                        f_equal; exact Hout)
                  ltac:(vm_compute; reflexivity)
                  ltac:(vm_compute; reflexivity))
               m Hin Hkey))) in Hbelow.
    discriminate.
Defined.

(** ** The left join *)

Lemma join_row_left mapping r :
  map left (join_row mapping r)
  = repeat r (Nat.max 1 (List.length (matches mapping r))).
Proof.
  unfold join_row, matches.
  destruct (filter _ mapping) as [|e es]; trivial.
  change (Nat.max 1 (List.length (e :: es))) with (S (List.length es)).
  simpl. f_equal. induction es; simpl; congruence.
Qed.

Lemma merge_left_rows df mapping :
  map left (merge_left df mapping)
  = flat_map (fun r => repeat r (Nat.max 1 (List.length (matches mapping r)))) df.
Proof.
  unfold merge_left. induction df as [|r df IH]; simpl; trivial.
  now rewrite map_app, join_row_left, IH.
Qed.

Lemma join_row_unmapped mapping r :
  mapped mapping r = false -> join_row mapping r = [mkMerged r None].
Proof.
  unfold mapped, join_row. intros H.
  replace (filter _ mapping) with (@nil mapping_row); trivial.
  symmetry. induction mapping as [|e es IH]; simpl in *; trivial.
  apply orb_false_iff in H. destruct H as [-> H]. auto.
Qed.

Lemma join_row_mapped_left mapping r m :
  In m (join_row mapping r) -> left m = r.
Proof.
  unfold join_row.
  destruct (filter _ mapping) as [|e es].
  - intros [<-|[]]. reflexivity.
  - intros H. apply in_map_iff in H. destruct H as (e' & <- & _). reflexivity.
Qed.

(** C9: the join of a table with the mapping keeps every row of the table:
    the left parts of the joined rows are the rows of the table, in order,
    each at least once (once per mapping entry of its campaign); a row
    whose campaign has no mapping entry is in the output with a null
    automation; no row is dropped. *)
Theorem merge_keeps_every_row self df mapping out :
  mapping_data self = Some mapping ->
  merge_with_mapping self (Some df) = Ok out ->
  map left out
  = flat_map (fun r => repeat r (Nat.max 1 (List.length (matches mapping r)))) df
  /\ (forall r, In r df -> In r (map left out))
  /\ (forall r, In r df -> mapped mapping r = false -> In (mkMerged r None) out)
  /\ (List.length df <= List.length out)%nat.
Proof.
  intros Hm. unfold merge_with_mapping. rewrite Hm. intros [= <-].
  split; [apply merge_left_rows|]. split; [|split].
  - intros r Hr. rewrite merge_left_rows. apply in_flat_map.
    exists r. split; trivial.
    destruct (List.length (matches mapping r)); simpl; auto.
  - intros r Hr Hu. unfold merge_left. apply in_flat_map.
    exists r. split; trivial. rewrite join_row_unmapped by assumption. now left.
  - rewrite <- (length_map left), merge_left_rows.
    clear. induction df as [|r df IH]; [reflexivity|].
    cbn [flat_map List.length]. rewrite length_app, repeat_length.
    pose proof (Nat.le_max_l 1 (List.length (matches mapping r))). lia.
Qed.

Lemma merge_keeps_every_row_witness :
  mapped sample_mapping
         (process_row (Some "w") (sample_raw "C" "s3" 500 480 100 20 20 1)) = false /\
  In (mkMerged (process_row (Some "w") (sample_raw "C" "s3" 500 480 100 20 20 1)) None)
     (merge_left [process_row (Some "w") (sample_raw "A" "s1" 60 58 20 5 2 0);
                  process_row (Some "w") (sample_raw "C" "s3" 500 480 100 20 20 1)]
                 sample_mapping).
Proof.
  split; [reflexivity|].
  apply (merge_keeps_every_row with_mapping
           [process_row (Some "w") (sample_raw "A" "s1" 60 58 20 5 2 0);
            process_row (Some "w") (sample_raw "C" "s3" 500 480 100 20 20 1)]
           sample_mapping
           (merge_left [process_row (Some "w") (sample_raw "A" "s1" 60 58 20 5 2 0);
                        process_row (Some "w") (sample_raw "C" "s3" 500 480 100 20 20 1)]
                       sample_mapping)
           eq_refl eq_refl).
  - simpl. auto.
  - reflexivity.
Defined.

(** ** Rows without an automation *)

Lemma merge_left_filter_mapped df mapping :
  merge_left (filter (mapped mapping) df) mapping
  = filter (fun m => mapped mapping (left m)) (merge_left df mapping).
Proof.
  unfold merge_left. induction df as [|r df IH]; simpl; trivial.
  rewrite filter_app, <- IH.
  destruct (mapped mapping r) eqn:E; simpl.
  - f_equal. symmetry. apply forallb_filter_id. apply forallb_forall.
    intros m Hm. now rewrite (join_row_mapped_left _ _ _ Hm).
  - rewrite (join_row_unmapped _ _ E). simpl. now rewrite E.
Qed.

Lemma unmapped_has_no_automation df mapping m :
  In m (merge_left df mapping) -> mapped mapping (left m) = false ->
  Automacao m = None.
Proof.
  unfold merge_left. intros H Hu. apply in_flat_map in H.
  destruct H as (r & _ & H).
  pose proof (join_row_mapped_left _ _ _ H) as <-.
  rewrite (join_row_unmapped _ _ Hu) in H. destruct H as [<-|[]]. reflexivity.
Qed.

(** C10: the rows of campaigns without a mapping entry, which the left join
    keeps with a null automation, take no part in the two aggregations by
    automation: both tables are the same as if those rows had been
    removed from the combined data before the join. *)
Theorem unmapped_rows_not_aggregated all_data mapping min_emails :
  (forall r, In r all_data -> mapped mapping r = false ->
             In (mkMerged r None) (merge_left all_data mapping))
  /\ automation_metrics (merge_left all_data mapping) min_emails
     = automation_metrics (merge_left (filter (mapped mapping) all_data) mapping)
                          min_emails
  /\ weekly_metrics (merge_left all_data mapping)
     = weekly_metrics (merge_left (filter (mapped mapping) all_data) mapping).
Proof.
  split; [|split].
  - intros r Hr Hu. unfold merge_left. apply in_flat_map.
    exists r. split; trivial. rewrite join_row_unmapped by assumption. now left.
  - unfold automation_metrics. rewrite merge_left_filter_mapped.
    rewrite groupby_sum_filter; trivial.
    intros m Hm Hu. unfold automation_key.
    now apply (unmapped_has_no_automation all_data mapping).
  - unfold weekly_metrics. rewrite merge_left_filter_mapped.
    rewrite groupby_sum_filter; trivial.
    intros m Hm Hu. unfold automation_week_key.
    now rewrite (unmapped_has_no_automation all_data mapping m Hm Hu).
Qed.

Lemma nge_fin_z a b : (b <= a)%Z -> nge (fin_z a) (fin_z b) = true.
Proof.
  intros H. unfold nge, fin_z.
  destruct (inject_Z a ?= inject_Z b)%Q eqn:E; trivial.
  rewrite <- Qlt_alt in E. unfold Qlt, inject_Z in E. simpl in E. lia.
Qed.

Theorem scenario_two_campaigns_one_group file_path label now bA uA bB uB min_emails :
  (min_emails <= 250)%Z ->
  exists m,
    snd (get_automation_performance (scenario file_path label now bA uA bB uB) min_emails)
    = Ok [m]
    /\ key m = "G1"
    /\ sum_Sent (sums m) = fin_z 250
    /\ sum_Delivered (sums m) = fin_z 246
    /\ sum_Opened (sums m) = fin_z 55
    /\ sum_Clicked (sums m) = fin_z 13
    /\ Open_Rate m = Fin (55 # 246)
    /\ Click_Rate m = Fin (13 # 246).
Proof.
  intros Hmin.
  unfold get_automation_performance, scenario.
  cbn -[nge fin_z automation_metrics].
  unfold automation_metrics.
  cbn -[nge fin_z filter_min_emails Qred].
  match goal with
  | |- exists m, Ok (filter_min_emails _ [?x]) = _ /\ _ => set (m0 := x)
  end.
  exists m0. split.
  - unfold filter_min_emails. cbn [filter].
    change (sum_Sent (sums m0)) with (fin_z 250).
    now rewrite (nge_fin_z 250 min_emails Hmin).
  - repeat split; vm_compute; reflexivity.
Qed.

Lemma scenario_two_campaigns_one_group_witness :
  exists m,
    snd (get_automation_performance
           (scenario "semana.csv" "Semana de Teste" sample_clock 2 1 2 0) 100)
    = Ok [m]
    /\ key m = "G1"
    /\ sum_Sent (sums m) = fin_z 250
    /\ sum_Delivered (sums m) = fin_z 246
    /\ sum_Opened (sums m) = fin_z 55
    /\ sum_Clicked (sums m) = fin_z 13
    /\ Open_Rate m = Fin (55 # 246)
    /\ Click_Rate m = Fin (13 # 246).
Proof.
  apply (scenario_two_campaigns_one_group
           "semana.csv" "Semana de Teste" sample_clock 2 1 2 0 100).
  lia.
Defined.

(** ** Rates of the aggregated tables *)

(** In the three aggregated tables every rate is the quotient of two sums
    of the group. *)
Lemma add_rates_ratios {K : Type} (g : K * totals) :
  Delivery_Rate (add_rates g) = ndiv (sum_Delivered (snd g)) (sum_Sent (snd g)) /\
  Open_Rate (add_rates g) = ndiv (sum_Opened (snd g)) (sum_Delivered (snd g)) /\
  Click_Rate (add_rates g) = ndiv (sum_Clicked (snd g)) (sum_Delivered (snd g)) /\
  CTOR (add_rates g) = ndiv (sum_Clicked (snd g)) (sum_Opened (snd g)) /\
  Bounce_Rate (add_rates g) = ndiv (sum_Bounced (snd g)) (sum_Sent (snd g)) /\
  Unsubscribe_Rate (add_rates g) = ndiv (sum_Unsubscribed (snd g)) (sum_Delivered (snd g)).
Proof. repeat split. Qed.

(** In the table by automation the rates of a group are quotients of the
    sums over all the rows of that automation: never a mean of the rates
    of the rows. *)
Lemma automation_rates_ratio_of_sums merged_data min_emails m :
  In m (automation_metrics merged_data min_emails) ->
  let total f := nsum (map (fun r => f (merged_vol r))
                           (rows_of_automation (key m) merged_data)) in
  Delivery_Rate m = ndiv (total Delivered) (total Sent) /\
  Open_Rate m = ndiv (total Opened) (total Delivered) /\
  Click_Rate m = ndiv (total Clicked) (total Delivered) /\
  CTOR m = ndiv (total Clicked) (total Opened) /\
  Bounce_Rate m = ndiv (total Bounced) (total Sent) /\
  Unsubscribe_Rate m = ndiv (total Unsubscribed) (total Delivered).
Proof.
  unfold automation_metrics, filter_min_emails. intros H.
  apply filter_In in H. destruct H as [H _].
  apply in_map_iff in H. destruct H as ([k t] & <- & H).
  apply groupby_sum_from in H. subst t. cbv zeta.
  rewrite rows_of_automation_in_group. repeat split.
Qed.

(** A quotient by zero is NaN or an infinity, never 0. *)
Lemma ndiv_zero_denominator x q :
  (q == 0)%Q -> ndiv x (Fin q) = NaN \/ ndiv x (Fin q) = PInf \/ ndiv x (Fin q) = NInf.
Proof.
  intros Hq. assert (E : qsign q = Eq).
  { unfold qsign. unfold Qeq in Hq. simpl in Hq. apply Z.compare_eq_iff. lia. }
  destruct x as [| | |a]; simpl; rewrite ?E; auto.
  destruct (qsign a); simpl; auto.
Qed.

(** The week summary guards its quotients: a zero denominator gives 0. *)
Lemma guarded_ratio_zero_denominator a q :
  (q == 0)%Q -> guarded_ratio a (Fin q) = fin_z 0.
Proof.
  intros Hq. unfold guarded_ratio, ngt, fin_z.
  destruct (q ?= inject_Z 0)%Q eqn:E; trivial.
  rewrite <- Qgt_alt in E. rewrite Hq in E. discriminate.
Qed.

(** C1: at the week [no_opens] (campaign [A]: 100 sent, 98 delivered, none
    opened, none clicked) the sums of the group have ['Opened'] = 0 and the
    CTOR of the group, clicked over opened, is NaN in the tables by
    automation, by automation and week, and by subject; the claim asks
    for 0, which is what the week summary returns for the same data. *)
Theorem zero_denominator_rate_is_nan :
  (exists m, snd (get_automation_performance no_opens 100) = Ok [m]
             /\ sum_Opened (sums m) = fin_z 0 /\ CTOR m = NaN)
  /\ (exists m, snd (get_weekly_automation_performance no_opens) = Ok [m]
                /\ sum_Opened (sums m) = fin_z 0 /\ CTOR m = NaN)
  /\ (exists m, snd (analyze_subject_performance no_opens 100) = Ok [m]
                /\ sum_Opened (sums m) = fin_z 0 /\ CTOR m = NaN)
  /\ (exists s, get_week_summary no_opens None = Ok s
                /\ total_opened s = fin_z 0 /\ ctor s = fin_z 0).
Proof.
  repeat split; eexists; (split; [vm_compute; reflexivity|]); split; reflexivity.
Qed.

(** ** Percent cells *)

(** A text ending in [%] whose stripped text is a number becomes that
    number over 100. *)
Lemma convert_percent_text s x :
  endswith s "%" = true -> py_float (strip_char "%" s) = Some x ->
  _convert_percent_to_float (CStr s) = Ok (CNum (ndiv x (fin_z 100))).
Proof. intros H1 H2. unfold _convert_percent_to_float. now rewrite H1, H2. Qed.

(** Any other value is returned as it is. *)
Lemma convert_percent_other value :
  (forall s, value = CStr s -> endswith s "%" = false) ->
  _convert_percent_to_float value = Ok value.
Proof.
  destruct value as [s|x]; simpl; trivial.
  intros H. now rewrite (H s eq_refl).
Qed.

(** A text ending in [%] whose stripped text is not a number raises. *)
Lemma convert_percent_unreadable s :
  endswith s "%" = true -> py_float (strip_char "%" s) = None ->
  _convert_percent_to_float (CStr s) = Raise ValueError.
Proof. intros H1 H2. unfold _convert_percent_to_float. now rewrite H1, H2. Qed.

(** C4: the cell [abc%] of a rate column: the conversion raises
    [ValueError], and so does [load_weekly_data] on a table with that
    cell, which leaves the processor as it was; the claim asks for a
    missing value, which is what the volume columns get for the text
    [abc]. *)
Theorem unreadable_percent_raises :
  _convert_percent_to_float (CStr "abc%") = Raise ValueError
  /\ load_weekly_data with_mapping upload_path [bad_percent_row]
                      (Some "Semana de Teste") sample_clock
     = (with_mapping, Raise ValueError)
  /\ _convert_percent_to_float (CStr "25.5%") = Ok (CNum (Fin (51 # 200)))
  /\ _convert_percent_to_float (CNum (Fin (51 # 200))) = Ok (CNum (Fin (51 # 200)))
  /\ to_numeric (CStr "abc") = NaN.
Proof. repeat split; vm_compute; reflexivity. Qed.

(** ** The week label *)

Lemma split_aux_not_nil sep s : forall skip cur, split_aux sep skip cur s <> [].
Proof.
  induction s as [|c s IH]; cbn [split_aux]; intros skip cur; [discriminate|].
  destruct skip; [|apply IH].
  destruct (String.prefix sep (String c s)); [discriminate|apply IH].
Qed.

Lemma split_first sep s : exists x, nth_error (split sep s) 0 = Some x.
Proof.
  unfold split. destruct (split_aux sep 0 "" s) eqn:E.
  - now apply split_aux_not_nil in E.
  - simpl. eauto.
Qed.

Lemma split_second sep s :
  sep <> "" -> contains sep s = true ->
  exists x, nth_error (split sep s) 1 = Some x.
Proof.
  intros Hsep. unfold split. generalize "" as cur.
  induction s as [|c s IH]; intros cur; cbn [split_aux contains].
  - destruct sep; [congruence|discriminate].
  - destruct (String.prefix sep (String c s)) eqn:E.
    + intros _. destruct (split_aux sep (String.length sep - 1) "" s) eqn:E'.
      * now apply split_aux_not_nil in E'.
      * simpl. eauto.
    + apply IH.
Qed.

(** The [try] block raises on no path: its [except] branch, which holds
    the fallback label, is never taken. *)
Lemma label_from_filename_never_raises file_path :
  exists l, label_from_filename file_path = Ok l.
Proof.
  unfold label_from_filename. cbv zeta.
  destruct (contains "sent_" (basename file_path)) eqn:E; cbn [andb]; [|eauto].
  destruct (contains ".csv" (basename file_path)); [|eauto].
  destruct (split_second "sent_" (basename file_path)) as [x Hx];
    [discriminate|assumption|].
  rewrite Hx.
  destruct (split_first ".csv" x) as [y Hy]. rewrite Hy. eauto.
Qed.

(** Without [sent_] or [.csv] in the file name and without an explicit
    label, the label stays [None] whatever the date. *)
Lemma resolve_week_label_unmatched file_path now :
  andb (contains "sent_" (basename file_path))
       (contains ".csv" (basename file_path)) = false ->
  resolve_week_label file_path None now = None.
Proof.
  intros H. unfold resolve_week_label, label_from_filename. now rewrite H.
Qed.

Lemma resolve_week_label_explicit file_path l now :
  resolve_week_label file_path (Some l) now = Some l.
Proof. reflexivity. Qed.

(** C5: an export uploaded through the application is loaded from a
    temporary file, [upload_path], without a label.  The file name does not
    contain [sent_]: the label is [None], not the fallback of the claim
    ("Semana 27, 2025" at [sample_clock]); the table is stored under the
    key [None] with a null ['Semana'] and [load_weekly_data] raises
    [AttributeError].  A file name of the convention gives the label made
    of its two dates. *)
Theorem unmatched_filename_gives_no_label :
  resolve_week_label upload_path None sample_clock = None
  /\ fallback_label sample_clock = "Semana 27, 2025"
  /\ snd (load_weekly_data with_mapping upload_path
            [sample_raw "A" "s1" 100 98 25 5 2 0] None sample_clock)
     = Raise AttributeError
  /\ map fst (historical_data
                (fst (load_weekly_data with_mapping upload_path
                        [sample_raw "A" "s1" 100 98 25 5 2 0] None sample_clock)))
     = [None]
  /\ option_map (map Semana)
       (current_week_data
          (fst (load_weekly_data with_mapping upload_path
                  [sample_raw "A" "s1" 100 98 25 5 2 0] None sample_clock)))
     = Some [None]
  /\ resolve_week_label "/tmp/Automation messages sent_2025-06-302025-07-06.csv"
                        None sample_clock
     = Some "2025-06-30 a 2025-07-06".
Proof. repeat split; vm_compute; reflexivity. Qed.

(** ** The order of the rows of the week-over-week table *)

Lemma key_le_total a b : ~ key_le a b -> key_le b a.
Proof.
  unfold key_le. intros H.
  destruct (pair_compare a b) eqn:E; try (exfalso; apply H; discriminate).
  rewrite (pair_compare_gt_lt _ _ E). discriminate.
Qed.

Lemma key_le_cases a b : key_le a b <-> pair_compare a b = Lt \/ a = b.
Proof.
  unfold key_le. split.
  - destruct (pair_compare a b) eqn:E; intros H; auto.
    + right. now apply pair_compare_eq.
    + congruence.
  - intros [H| ->]; [rewrite H|rewrite pair_compare_refl]; discriminate.
Qed.

Lemma key_le_trans a b c : key_le a b -> key_le b c -> key_le a c.
Proof.
  rewrite !key_le_cases. intros [H1| ->] [H2| ->]; auto.
  left. eapply pair_compare_lt_trans; eassumption.
Qed.

Lemma leb_of_key_le a b : leb_of (pair_compare a b) = true <-> key_le a b.
Proof.
  unfold key_le, leb_of. destruct (pair_compare a b); split; congruence.
Qed.

Lemma insert_sorted_keys_Sorted m l :
  Sorted key_le (map key l) -> Sorted key_le (map key (insert_sorted m l)).
Proof.
  induction l as [|m' l IH]; simpl; intros H.
  - repeat constructor.
  - destruct (leb_of (pair_compare (key m) (key m'))) eqn:E; simpl.
    + constructor; trivial. constructor. now apply leb_of_key_le.
    + inversion H as [|? ? Hs Hh]; subst.
      assert (Hm : key_le (key m') (key m)).
      { apply key_le_total. intros Hc. apply leb_of_key_le in Hc. congruence. }
      constructor; [now apply IH|].
      destruct l as [|m'' l]; simpl.
      * now constructor.
      * destruct (leb_of (pair_compare (key m) (key m''))); simpl;
          constructor; trivial.
        now inversion Hh.
Qed.

Lemma sort_values_Sorted l : Sorted key_le (map key (sort_values l)).
Proof.
  unfold sort_values. induction l as [|m l IH]; simpl.
  - constructor.
  - now apply insert_sorted_keys_Sorted.
Qed.

Lemma pct_change_length pad l : forall seen,
  List.length (pct_change pad seen l) = List.length l.
Proof.
  induction l as [|[g v] l IH]; simpl; intros seen; trivial.
  now rewrite IH.
Qed.

Lemma change_column_length pad col l :
  List.length (change_column pad col l) = List.length l.
Proof.
  unfold change_column. now rewrite length_map, pct_change_length, length_map.
Qed.

Lemma zip_changes_perf l : forall o c t,
  List.length o = List.length l -> List.length c = List.length l ->
  List.length t = List.length l ->
  map perf (zip_changes l o c t) = l.
Proof.
  induction l as [|m l IH]; intros [|x o] [|y c] [|z t]; simpl;
    try discriminate; trivial.
  intros [= Ho] [= Hc] [= Ht]. f_equal. now apply IH.
Qed.

(** The rows of the week-over-week table are the sorted weekly rows. *)
Lemma week_over_week_perf pad weekly_perf :
  map perf (week_over_week pad weekly_perf) = sort_values weekly_perf.
Proof.
  unfold week_over_week. apply zip_changes_perf; apply change_column_length.
Qed.

Lemma get_week_over_week_changes_ok pad self self' out :
  get_week_over_week_changes pad self = (self', Ok out) ->
  exists weekly_perf,
    get_weekly_automation_performance self = (self', Ok weekly_perf) /\
    out = week_over_week pad weekly_perf.
Proof.
  unfold get_week_over_week_changes.
  destruct (get_weekly_automation_performance self) as [s1 [w|e]];
    [|discriminate].
  intros [= <- <-]. eauto.
Qed.

(** The order the code gives to the rows of the week-over-week table: that
    of [sort_values(['Automacao', 'Semana'])], the pair (automation, week
    label) with both parts compared as text. *)
Lemma sort_values_orders_changes pad self self' out :
  get_week_over_week_changes pad self = (self', Ok out) ->
  StronglySorted key_le (change_keys out).
Proof.
  intros H. apply get_week_over_week_changes_ok in H.
  destruct H as (w & _ & ->).
  apply Sorted_StronglySorted; [exact key_le_trans|].
  unfold change_keys. rewrite <- (map_map perf key).
  rewrite week_over_week_perf. apply sort_values_Sorted.
Qed.

(** C2: the weeks of an automation are to be taken in the order in which
    they were loaded (the comment of the sort is "Ordenar por semana", and
    [get_all_weeks_summary] keeps that order), but the code does not keep
    it.  The store received [Week 9] before [Week 10]; the sort compares
    the labels as text, so the table has the row of [Week 10] before the
    row of [Week 9]: the later week [Week 10] gets the missing change of a
    first week, and the change of [Week 9] is taken against [Week 10]
    (open rate from 1/4 to 10/49, that is -900/49 percent), where the
    change from [Week 9] to [Week 10] is +45/2 percent. *)
Theorem insertion_order_not_kept :
  map fst (historical_data week_9_then_10) = [Some "Week 9"; Some "Week 10"]
  /\ (forall pad,
        map (fun c => (key (perf c), Open_Rate (perf c), Open_Rate_Change c))
            (week_9_then_10_changes pad)
        = [(("G1", "Week 10"), Fin (1 # 4), NaN);
           (("G1", "Week 9"), Fin (10 # 49), Fin (-900 # 49))])
  /\ change_of (10 # 49) (1 # 4) = Fin (45 # 2)
  /\ ~ (forall pad self self' out,
          get_week_over_week_changes pad self = (self', Ok out) ->
          chronological (map fst (historical_data self')) (change_keys out) = true).
Proof.
  split; [vm_compute; reflexivity|].
  split; [intros []; vm_compute; reflexivity|].
  split; [vm_compute; reflexivity|].
  intros H.
  specialize (H true week_9_then_10
                (fst (get_week_over_week_changes true week_9_then_10))
                (week_9_then_10_changes true) eq_refl).
  vm_compute in H. discriminate.
Qed.

(** ** The week-over-week changes *)

Lemma qsign_not_Eq q : qsign q <> Eq -> ~ (q == 0)%Q.
Proof.
  unfold qsign, Qeq. simpl. intros H E. apply H. apply Z.compare_eq_iff. lia.
Qed.

(** The change computed for two finite values, in percent. *)
Lemma pct_times_100 p c :
  nmul (pct (Fin c) (Fin p)) (fin_z 100) = change_of p c.
Proof.
  unfold pct, change_of, ndiv.
  destruct (qsign p) eqn:Ep.
  - destruct (qsign c); reflexivity.
  - unfold nsub, nneg, nadd, nmul, fin_z. f_equal. apply Qred_complete.
    rewrite !Qred_correct.
    assert (Hp : ~ (p == 0)%Q) by (apply qsign_not_Eq; congruence).
    change (inject_Z 1) with 1%Q. change (inject_Z 100) with 100%Q.
    field. exact Hp.
  - unfold nsub, nneg, nadd, nmul, fin_z. f_equal. apply Qred_complete.
    rewrite !Qred_correct.
    assert (Hp : ~ (p == 0)%Q) by (apply qsign_not_Eq; congruence).
    change (inject_Z 1) with 1%Q. change (inject_Z 100) with 100%Q.
    field. exact Hp.
Qed.

Lemma last_value_other g g' v seen :
  g' <> g -> last_value g ((g', v) :: seen) = last_value g seen.
Proof.
  intros H. simpl. destruct (String.eqb g' g) eqn:E; trivial.
  apply String.eqb_eq in E. congruence.
Qed.

Lemma last_value_same g v seen : last_value g ((g, v) :: seen) = Some v.
Proof. simpl. now rewrite String.eqb_refl. Qed.

(** The first row of a group has no previous value. *)
Lemma pct_change_first pad g v l2 : forall l1 seen,
  last_value g seen = None ->
  (forall x, In x l1 -> fst x <> g) ->
  nth_error (pct_change pad seen (l1 ++ (g, v) :: l2)%list) (List.length l1)
  = Some NaN.
Proof.
  induction l1 as [|[g' v'] l1 IH]; intros seen Hs Hl.
  - simpl. now rewrite Hs.
  - cbn [app pct_change List.length nth_error]. apply IH.
    + rewrite last_value_other; trivial. apply (Hl (g', v')). now left.
    + intros x Hx. apply Hl. now right.
Qed.

(** A later row of a group is compared with the last row of the group. *)
Lemma pct_change_next pad g p c l3 : forall l2 seen,
  last_value g seen = Some (Fin p) ->
  (forall x, In x l2 -> fst x <> g) ->
  nth_error (pct_change pad seen (l2 ++ (g, Fin c) :: l3)%list) (List.length l2)
  = Some (pct (Fin c) (Fin p)).
Proof.
  induction l2 as [|[g' v'] l2 IH]; intros seen Hs Hl.
  - simpl. rewrite Hs. now rewrite andb_false_r.
  - cbn [app pct_change List.length nth_error]. apply IH.
    + rewrite last_value_other; trivial. apply (Hl (g', v')). now left.
    + intros x Hx. apply Hl. now right.
Qed.

Lemma pct_change_pair pad g p c l2 l3 : forall l1 seen,
  (forall x, In x l2 -> fst x <> g) ->
  nth_error (pct_change pad seen (l1 ++ (g, Fin p) :: l2 ++ (g, Fin c) :: l3)%list)
            (List.length l1 + 1 + List.length l2)
  = Some (pct (Fin c) (Fin p)).
Proof.
  induction l1 as [|[g' v'] l1 IH]; intros seen Hl.
  - cbn [app pct_change List.length nth_error Nat.add isnan].
    rewrite andb_false_r. apply pct_change_next; trivial.
    apply last_value_same.
  - cbn [app pct_change List.length nth_error Nat.add]. now apply IH.
Qed.

Lemma change_column_first pad col l1 a l2 :
  (forall m, In m l1 -> automation_of m <> automation_of a) ->
  nth_error (change_column pad col (l1 ++ a :: l2)%list) (List.length l1) = Some NaN.
Proof.
  intros H. unfold change_column. rewrite nth_error_map, map_app. simpl map.
  rewrite <- (length_map (fun m => (fst (key m), col m)) l1).
  rewrite pct_change_first; trivial.
  intros x Hx. apply in_map_iff in Hx. destruct Hx as (m & <- & Hm).
  now apply H.
Qed.

Lemma change_column_pair pad col l1 a l2 b l3 p c :
  (forall m, In m l2 -> automation_of m <> automation_of a) ->
  automation_of b = automation_of a ->
  col a = Fin p -> col b = Fin c ->
  nth_error (change_column pad col (l1 ++ a :: l2 ++ b :: l3)%list)
            (List.length l1 + 1 + List.length l2)
  = Some (change_of p c).
Proof.
  intros H Hb Ha Hc. unfold change_column.
  rewrite nth_error_map, map_app. simpl map. rewrite map_app. simpl map.
  rewrite <- (length_map (fun m => (fst (key m), col m)) l1).
  rewrite <- (length_map (fun m => (fst (key m), col m)) l2).
  unfold automation_of in Hb. rewrite Hb, Ha, Hc.
  rewrite pct_change_pair.
  - simpl. now rewrite pct_times_100.
  - intros x Hx. apply in_map_iff in Hx. destruct Hx as (m & <- & Hm).
    now apply H.
Qed.

Lemma zip_changes_nth l : forall o c t i r,
  nth_error (zip_changes l o c t) i = Some r ->
  nth_error l i = Some (perf r) /\
  nth_error o i = Some (Open_Rate_Change r) /\
  nth_error c i = Some (Click_Rate_Change r) /\
  nth_error t i = Some (CTOR_Change r).
Proof.
  induction l as [|m l IH]; intros [|x o] [|y c] [|z t] i r; simpl;
    try (destruct i; discriminate).
  destruct i as [|i]; simpl.
  - intros [= <-]. simpl. auto.
  - apply IH.
Qed.

Lemma week_over_week_nth pad weekly_perf i r :
  nth_error (week_over_week pad weekly_perf) i = Some r ->
  let rows := map perf (week_over_week pad weekly_perf) in
  nth_error rows i = Some (perf r) /\
  nth_error (change_column pad Open_Rate rows) i = Some (Open_Rate_Change r) /\
  nth_error (change_column pad Click_Rate rows) i = Some (Click_Rate_Change r) /\
  nth_error (change_column pad CTOR rows) i = Some (CTOR_Change r).
Proof.
  intros H rows. subst rows. rewrite week_over_week_perf.
  unfold week_over_week in H. now apply zip_changes_nth in H.
Qed.

Lemma get_week_over_week_changes_rows pad self self' out :
  get_week_over_week_changes pad self = (self', Ok out) ->
  exists weekly_perf, out = week_over_week pad weekly_perf.
Proof.
  intros H. apply get_week_over_week_changes_ok in H.
  destruct H as (w & _ & ->). eauto.
Qed.

(** C3 (as amended): in the table of [get_week_over_week_changes], the
    first row of an automation has NaN in the three change columns; a
    later row, for finite rates [p] (previous row of the automation) and
    [c] (this row), has [(c - p) / p * 100] when [p] is not zero, and when
    [p] is zero an infinity with the sign of [c], or NaN when [c] is zero
    too. *)
Theorem week_over_week_change_values pad self self' out :
  get_week_over_week_changes pad self = (self', Ok out) ->
  (forall l1 a l2 r,
      map perf out = (l1 ++ a :: l2)%list ->
      (forall m, In m l1 -> automation_of m <> automation_of a) ->
      nth_error out (List.length l1) = Some r ->
      Open_Rate_Change r = NaN /\ Click_Rate_Change r = NaN /\ CTOR_Change r = NaN)
  /\
  (forall l1 a l2 b l3 r,
      map perf out = (l1 ++ a :: l2 ++ b :: l3)%list ->
      (forall m, In m l2 -> automation_of m <> automation_of a) ->
      automation_of b = automation_of a ->
      nth_error out (List.length l1 + 1 + List.length l2) = Some r ->
      (forall p c, Open_Rate a = Fin p -> Open_Rate b = Fin c ->
                   Open_Rate_Change r = change_of p c) /\
      (forall p c, Click_Rate a = Fin p -> Click_Rate b = Fin c ->
                   Click_Rate_Change r = change_of p c) /\
      (forall p c, CTOR a = Fin p -> CTOR b = Fin c ->
                   CTOR_Change r = change_of p c)).
Proof.
  intros H. apply get_week_over_week_changes_rows in H. destruct H as (w & ->).
  split.
  - intros l1 a l2 r Hrows Hl1 Hr.
    apply week_over_week_nth in Hr. cbv zeta in Hr. rewrite Hrows in Hr.
    destruct Hr as (_ & Ho & Hc & Ht).
    rewrite change_column_first in Ho, Hc, Ht by assumption.
    repeat split; congruence.
  - intros l1 a l2 b l3 r Hrows Hl2 Hb Hr.
    apply week_over_week_nth in Hr. cbv zeta in Hr. rewrite Hrows in Hr.
    destruct Hr as (_ & Ho & Hc & Ht).
    repeat split; intros p c Hp Hc'.
    + rewrite (change_column_pair pad Open_Rate l1 a l2 b l3 p c) in Ho by assumption.
      congruence.
    + rewrite (change_column_pair pad Click_Rate l1 a l2 b l3 p c) in Hc by assumption.
      congruence.
    + rewrite (change_column_pair pad CTOR l1 a l2 b l3 p c) in Ht by assumption.
      congruence.
Qed.

Lemma week_over_week_change_values_witness :
  exists r, nth_error (opens_after_none_changes true) 1 = Some r
            /\ Open_Rate_Change r = change_of 0 (1 # 4)
            /\ Click_Rate_Change r = change_of 0 (1 # 20).
Proof.
  destruct (nth_error (opens_after_none_changes true) 1) as [r|] eqn:E;
    [|vm_compute in E; discriminate].
  exists r. split; trivial.
  destruct (week_over_week_change_values true opens_after_none
              (fst (get_week_over_week_changes true opens_after_none))
              (opens_after_none_changes true)) as [_ H];
    [vm_compute; reflexivity|].
  match eval vm_compute in (map perf (opens_after_none_changes true)) with
  | [?a; ?b] =>
      destruct (H [] a [] b [] r) as (Ho & Hc & _);
        [vm_compute; reflexivity
        |intros m []
        |reflexivity
        |exact E
        |split; [apply Ho|apply Hc]; reflexivity]
  end.
Defined.

(** C3 (as stated) fails: in [opens_after_none] the open rate of [G1] is 0
    in the first week and 1/4 in the second; the change of the second
    week is +inf, with and without forward fill. *)
Lemma change_after_zero_is_infinite :
  map (fun r => Open_Rate (perf r)) (opens_after_none_changes true)
  = [fin_z 0; Fin (1 # 4)]
  /\ map Open_Rate_Change (opens_after_none_changes true) = [NaN; PInf]
  /\ map Open_Rate_Change (opens_after_none_changes false) = [NaN; PInf]
  /\ map isinf (map Open_Rate_Change (opens_after_none_changes true)) = [false; true].
Proof. repeat split; vm_compute; reflexivity. Qed.

(** ** The range of the rate columns *)

Lemma get_set_rate_same col v r : get_rate col (set_rate col v r) = v.
Proof. destruct col; reflexivity. Qed.

Lemma get_set_rate_other c col v r :
  c <> col -> get_rate c (set_rate col v r) = get_rate c r.
Proof. destruct c, col; trivial; congruence. Qed.

Lemma rate_col_eq_dec (a b : rate_col) : {a = b} + {a <> b}.
Proof. decide equality. Qed.

Lemma percent_in_unit q :
  (0 <= q)%Q -> (q <= 100)%Q -> in_unit (ndiv (Fin q) (fin_z 100)).
Proof.
  intros H0 H1. unfold ndiv, fin_z, in_unit.
  change (qsign (inject_Z 100)) with Gt. cbv iota.
  split; rewrite Qred_correct.
  - apply Qle_shift_div_l; [reflexivity|]. now rewrite Qmult_0_l.
  - apply Qle_shift_div_r; [reflexivity|]. now rewrite Qmult_1_l.
Qed.

(** A percent between 0 and 100, or NaN, over 100 is between 0 and 1, or
    missing. *)
Lemma percent_range x :
  percent_in_range x -> unit_or_missing (CNum (ndiv x (fin_z 100))).
Proof.
  destruct x as [| | |q]; try (simpl; tauto).
  intros [H0 H1]. pose proof (percent_in_unit q H0 H1) as H.
  unfold ndiv, fin_z in *. change (qsign (inject_Z 100)) with Gt in *.
  cbv iota in *. exact H.
Qed.

Lemma convert_normalized c v :
  _convert_percent_to_float c = Ok v -> normalized c v.
Proof.
  unfold _convert_percent_to_float, normalized. destruct c as [s|x].
  - destruct (endswith s "%").
    + destruct (py_float (strip_char "%" s)) as [x|]; [|discriminate].
      intros [= <-]. exists x. split; [reflexivity|]. split; [reflexivity|].
      apply percent_range.
    + now intros [= <-].
  - now intros [= <-].
Qed.

Lemma readable_converts c :
  readable c -> exists v, _convert_percent_to_float c = Ok v.
Proof.
  unfold readable, _convert_percent_to_float. destruct c as [s|x]; [|eauto].
  intros H. destruct (endswith s "%") eqn:Ee; [|eauto].
  destruct (py_float (strip_char "%" s)) as [x|] eqn:E; [eauto|].
  now destruct (H s eq_refl Ee).
Qed.

Lemma converted_start csv : Forall2 (converted []) csv csv.
Proof.
  induction csv as [|r csv IH]; constructor; trivial.
  intros c. split; [intros []|reflexivity].
Qed.

(** One turn of the loop over the percent columns. *)
Lemma apply_percent_cells col done csv df :
  ~ In col done ->
  Forall (fun r => all_rates readable (raw_rates r)) csv ->
  Forall2 (converted done) csv df ->
  exists df', apply_percent col df = Ok df'
              /\ Forall2 (converted (col :: done)) csv df'.
Proof.
  intros Hnot Hread H. induction H as [|raw r csv df Hr _ IH]; cbn [apply_percent].
  - exists []. split; [reflexivity|constructor].
  - inversion Hread as [|? ? Hraw Hrest]; subst.
    destruct (Hr col) as [_ Heq]. rewrite (Heq Hnot).
    destruct (readable_converts _ (Hraw col)) as (v & Ev). rewrite Ev.
    destruct (IH Hrest) as (df' & -> & Hdf').
    eexists. split; [reflexivity|]. constructor; trivial.
    intros c. cbn [raw_rates]. destruct (rate_col_eq_dec c col) as [->|Hne].
    + rewrite get_set_rate_same. split; [intros _; exact Ev|].
      intros Hc. exfalso. apply Hc. now left.
    + rewrite get_set_rate_other by assumption. destruct (Hr c) as [H1 H2]. split.
      * intros [Hc|Hc]; [congruence|now apply H1].
      * intros Hc. apply H2. intros Hd. apply Hc. now right.
Qed.

(** The whole loop: every column is converted once, from the cell read
    from the file. *)
Lemma convert_percent_columns_cells cols : forall done csv df,
  NoDup cols -> (forall c, In c cols -> ~ In c done) ->
  Forall (fun r => all_rates readable (raw_rates r)) csv ->
  Forall2 (converted done) csv df ->
  exists df', convert_percent_columns cols df = Ok df'
              /\ Forall2 (converted (cols ++ done)%list) csv df'.
Proof.
  induction cols as [|col cols IH]; intros done csv df Hnd Hdis Hread H;
    cbn [convert_percent_columns].
  - exists df. auto.
  - inversion Hnd as [|? ? Hcol Hnd']; subst.
    destruct (apply_percent_cells col done csv df) as (df1 & -> & H1); trivial.
    { apply Hdis. now left. }
    destruct (IH (col :: done) csv df1) as (df2 & -> & H2); trivial.
    { intros c Hc [<-|Hd]; [contradiction|]. apply (Hdis c); [now right|assumption]. }
    exists df2. split; trivial.
    eapply Forall2_impl; [|exact H2]. intros raw r Hr c.
    destruct (Hr c) as [Ha Hb]. split.
    + intros Hc. apply Ha. apply in_app_iff. cbn [In app] in *.
      rewrite in_app_iff in Hc. tauto.
    + intros Hc. apply Hb. intros Hd. apply Hc. apply in_app_iff in Hd.
      cbn [In app] in *. rewrite in_app_iff. tauto.
Qed.

Lemma percent_columns_all col : In col percent_columns.
Proof. destruct col; simpl; tauto. Qed.

Lemma percent_columns_NoDup : NoDup percent_columns.
Proof.
  unfold percent_columns.
  repeat (apply NoDup_cons; [cbn [In]; intuition discriminate|]).
  apply NoDup_nil.
Qed.

Lemma Forall2_process_rows (P : cell -> cell -> Prop) label csv : forall df0,
  Forall2 (fun raw r0 => forall col,
             P (get_rate col (raw_rates raw)) (get_rate col (raw_rates r0))) csv df0 ->
  Forall2 (fun raw r => forall col,
             P (get_rate col (raw_rates raw)) (get_rate col (rate r)))
          csv (map (process_row label) df0).
Proof.
  induction 1; cbn [map]; constructor; trivial.
Qed.

(** C8 (as amended): when the text before every [%] is a number,
    [load_weekly_data] raises nothing in the percent conversion, and the
    rate cells of the table it stores are, cell by cell, those of the
    export with the texts [p%] turned into [p / 100]: such a cell is a
    number between 0 and 1 (or missing) when [p] is between 0 and 100 (or
    NaN), and every other cell is left as it was.  A number stays
    the same number, between 0 and 1 only if it was; a text without [%]
    stays text, and this is the case of the numeric cells of a column that
    mixes both forms.  The table is returned when the week has a label. *)
Theorem rate_cells_after_conversion self file_path csv week_label now :
  Forall (fun r => all_rates readable (raw_rates r)) csv ->
  exists df,
    current_week_data (fst (load_weekly_data self file_path csv week_label now))
    = Some df
    /\ Forall2 (fun raw r => forall col,
                  normalized (get_rate col (raw_rates raw)) (get_rate col (rate r)))
               csv df
    /\ (forall l, resolve_week_label file_path week_label now = Some l ->
                  snd (load_weekly_data self file_path csv week_label now) = Ok df).
Proof.
  intros H.
  destruct (convert_percent_columns_cells percent_columns [] csv csv
              percent_columns_NoDup (fun c _ H => H) H (converted_start csv))
    as (df0 & E & Hdf0).
  unfold load_weekly_data. rewrite E.
  exists (map (process_row (resolve_week_label file_path week_label now)) df0).
  split; [|split].
  - now destruct (resolve_week_label file_path week_label now).
  - apply Forall2_process_rows.
    eapply Forall2_impl; [|exact Hdf0].
    intros raw r Hr col. apply convert_normalized. apply Hr.
    apply in_app_iff. left. apply percent_columns_all.
  - intros l ->. reflexivity.
Qed.

Lemma rate_cells_after_conversion_witness :
  exists df,
    snd (load_weekly_data with_mapping upload_path mixed_column
                          (Some "Semana de Teste") sample_clock) = Ok df
    /\ Forall2 (fun raw r => forall col,
                  normalized (get_rate col (raw_rates raw)) (get_rate col (rate r)))
               mixed_column df
    /\ map (fun r => Open_rate (rate r)) df = [CNum (Fin (51 # 200)); CStr "0.3"].
Proof.
  destruct (rate_cells_after_conversion with_mapping upload_path mixed_column
              (Some "Semana de Teste") sample_clock) as (df & _ & Hdf & Hok).
  - repeat constructor; intros col s Hc He; destruct col; cbn in Hc;
      try discriminate Hc; injection Hc as <-;
      vm_compute in He; try discriminate He; vm_compute; discriminate.
  - exists df. split; [now apply (Hok "Semana de Teste")|]. split; [exact Hdf|].
    specialize (Hok "Semana de Teste" eq_refl).
    vm_compute in Hok. injection Hok as <-. reflexivity.
Defined.

(** C8 (as stated) fails: the number 25.5 in the open-rate column is kept
    as it is and the text [150%] becomes 1.5; and in a column that mixes
    both forms the cell 0.3, read as text, stays the text [0.3] beside the
    0.255 made of [25.5%]. *)
Lemma rate_outside_unit_interval :
  (exists df,
      snd (load_weekly_data with_mapping upload_path [percent_units_row]
                            (Some "Semana de Teste") sample_clock) = Ok df
      /\ map (fun r => Open_rate (rate r)) df = [CNum (Fin (51 # 2))]
      /\ map (fun r => CTOR_rate (rate r)) df = [CNum (Fin (3 # 2))])
  /\ (exists df,
      snd (load_weekly_data with_mapping upload_path mixed_column
                            (Some "Semana de Teste") sample_clock) = Ok df
      /\ map (fun r => Open_rate (rate r)) df
         = [CNum (Fin (51 # 200)); CStr "0.3"]
      /\ ~ Forall (fun r => all_rates unit_or_missing (rate r)) df)
  /\ ~ (forall self file_path csv week_label now self' df,
          load_weekly_data self file_path csv week_label now = (self', Ok df) ->
          Forall (fun r => all_rates unit_or_missing (rate r)) df).
Proof.
  split; [|split].
  - eexists. split; [vm_compute; reflexivity|]. split; reflexivity.
  - eexists. split; [vm_compute; reflexivity|]. split; [reflexivity|].
    intros H. inversion H as [|r1 df1 _ H2]; subst.
    inversion H2 as [|r2 df2 Hr _]; subst.
    exact (Hr ColOpen).
  - intros H.
    specialize (H with_mapping upload_path [percent_units_row]
                  (Some "Semana de Teste") sample_clock _ _ eq_refl).
    inversion H as [|r df Hr _]; subst.
    specialize (Hr ColOpen). vm_compute in Hr. destruct Hr as [_ Hr].
    apply Hr. reflexivity.
Qed.

(* ===================================================================== *)
(** * Further properties                                                 *)
(* ===================================================================== *)

(** ** Column names *)

(** X1: a cleaned column name holds no double quote. *)
Theorem clean_column_name_no_quote col :
  ~ In quote_char (list_ascii_of_string (clean_column_name col)).
Proof.
  unfold clean_column_name. rewrite list_ascii_of_string_of_list_ascii.
  intros H. apply filter_In in H. destruct H as [_ H].
  now rewrite Ascii.eqb_refl in H.
Qed.

Lemma lstrip_space_id l :
  (forall c, hd_error l = Some c -> is_space c = false) -> lstrip_space l = l.
Proof.
  destruct l as [|c l]; simpl; trivial.
  intros H. now rewrite (H c eq_refl).
Qed.

Lemma filter_no_quote l :
  ~ In quote_char l -> filter (fun a => negb (Ascii.eqb a quote_char)) l = l.
Proof.
  induction l as [|a l IH]; simpl; trivial.
  intros H. destruct (Ascii.eqb a quote_char) eqn:E; simpl.
  - apply Ascii.eqb_eq in E. tauto.
  - f_equal. apply IH. tauto.
Qed.

(** X2: an ASCII column name without a double quote that neither starts
    nor ends with white space is left as it is (the white space inside a
    name such as ['Open rate'] stays). *)
Theorem clean_column_name_unchanged col :
  is_ascii col = true ->
  ~ In quote_char (list_ascii_of_string col) ->
  (forall c, hd_error (list_ascii_of_string col) = Some c -> is_space c = false) ->
  (forall c, hd_error (rev (list_ascii_of_string col)) = Some c -> is_space c = false) ->
  clean_column_name col = col.
Proof.
  intros _ Hq Hh Ht. unfold clean_column_name, strip_space.
  rewrite (lstrip_space_id _ Hh), (lstrip_space_id _ Ht), rev_involutive.
  rewrite filter_no_quote by assumption.
  apply string_of_list_ascii_of_string.
Qed.

Lemma clean_column_name_unchanged_witness :
  clean_column_name "Open rate" = "Open rate".
Proof.
  apply clean_column_name_unchanged.
  - reflexivity.
  - vm_compute. intuition discriminate.
  - intros c [= <-]. reflexivity.
  - intros c [= <-]. reflexivity.
Defined.

(** ** The store of the weeks *)

Lemma label_eqb_refl k : label_eqb k k = true.
Proof. now apply label_eqb_eq. Qed.

Lemma label_eqb_neq a b : a <> b -> label_eqb a b = false.
Proof.
  intros H. destruct (label_eqb a b) eqn:E; trivial.
  apply label_eqb_eq in E. congruence.
Qed.

Lemma dict_get_set_same {V : Type} k (v : V) d : dict_get k (dict_set k v d) = Some v.
Proof.
  induction d as [|[k' v'] d IH]; simpl.
  - now rewrite label_eqb_refl.
  - destruct (label_eqb k' k) eqn:E; simpl.
    + now rewrite label_eqb_refl.
    + now rewrite E.
Qed.

Lemma dict_get_set_other {V : Type} k k0 (v : V) d :
  k <> k0 -> dict_get k (dict_set k0 v d) = dict_get k d.
Proof.
  intros H. induction d as [|[k' v'] d IH]; simpl.
  - rewrite label_eqb_neq; congruence.
  - destruct (label_eqb k' k0) eqn:E; simpl.
    + apply label_eqb_eq in E. subst k'.
      rewrite !(label_eqb_neq k0 k); congruence.
    + now rewrite IH.
Qed.

Lemma label_in_iff k l : label_in k l = true <-> In k l.
Proof.
  unfold label_in. rewrite existsb_exists. split.
  - intros (x & Hx & E). apply label_eqb_eq in E. now subst.
  - intros H. exists k. split; trivial. apply label_eqb_refl.
Qed.

Lemma dict_set_keys {V : Type} k (v : V) d :
  map fst (dict_set k v d)
  = if label_in k (map fst d) then map fst d else (map fst d ++ [k])%list.
Proof.
  induction d as [|[k' v'] d IH]; simpl; trivial.
  unfold label_in in *. simpl.
  destruct (label_eqb k' k) eqn:E; simpl.
  - apply label_eqb_eq in E. subst k'. now rewrite label_eqb_refl.
  - rewrite (label_eqb_neq k k') by (intros ->; now rewrite label_eqb_refl in E).
    simpl. rewrite IH. now destruct (existsb (label_eqb k) (map fst d)).
Qed.

Lemma dict_set_in {V : Type} k0 (v : V) d k t :
  In (k, t) (dict_set k0 v d) -> (k, t) = (k0, v) \/ In (k, t) d.
Proof.
  induction d as [|[k' v'] d IH]; simpl.
  - intros [H|[]]. now left.
  - destruct (label_eqb k' k0); simpl; intros [H|H]; auto.
    destruct (IH H); auto.
Qed.

Lemma apply_percent_length col df df' :
  apply_percent col df = Ok df' -> List.length df' = List.length df.
Proof.
  revert df'. induction df as [|r df IH]; simpl; intros df'.
  - now intros [= <-].
  - destruct (_convert_percent_to_float _); [|discriminate].
    destruct (apply_percent col df); [|discriminate].
    intros [= <-]. simpl. f_equal. now apply IH.
Qed.

Lemma convert_percent_columns_length cols : forall df df',
  convert_percent_columns cols df = Ok df' -> List.length df' = List.length df.
Proof.
  induction cols as [|col cols IH]; simpl; intros df df'.
  - now intros [= <-].
  - destruct (apply_percent col df) as [df1|] eqn:E; [|discriminate].
    intros H. rewrite (IH _ _ H). now apply apply_percent_length in E.
Qed.

(** X3: when [load_weekly_data] returns a table, the week has a label, the
    table returned is the one now stored under that label and the current
    week, every row of it carries the label, it has one row per row of
    the export, and the tables stored under the other labels are the
    ones stored before (a week loaded again replaces its table). *)
Theorem load_weekly_data_stores self file_path csv week_label now self' df :
  load_weekly_data self file_path csv week_label now = (self', Ok df) ->
  exists l,
    resolve_week_label file_path week_label now = Some l
    /\ dict_get (Some l) (historical_data self') = Some df
    /\ current_week_data self' = Some df
    /\ (forall k, k <> Some l ->
          dict_get k (historical_data self') = dict_get k (historical_data self))
    /\ Forall (fun r => Semana r = Some l) df
    /\ List.length df = List.length csv.
Proof.
  unfold load_weekly_data.
  destruct (convert_percent_columns percent_columns csv) as [df0|] eqn:E;
    [|discriminate].
  destruct (resolve_week_label file_path week_label now) as [l|]; [|discriminate].
  intros [= <- <-]. exists l. simpl. repeat split.
  - apply dict_get_set_same.
  - intros k Hk. now apply dict_get_set_other.
  - apply Forall_map. apply Forall_forall. reflexivity.
  - rewrite length_map. now apply convert_percent_columns_length in E.
Qed.

Lemma load_weekly_data_stores_witness :
  exists df,
    dict_get (Some "2025-07-07 a 2025-07-13") (historical_data two_small_weeks)
    = Some df
    /\ current_week_data two_small_weeks = Some df
    /\ List.length df = 1%nat.
Proof.
  destruct (load_weekly_data_stores
              (fst (load_weekly_data with_mapping "w1.csv"
                      [sample_raw "A" "s1" 60 58 20 5 2 0;
                       sample_raw "C" "s3" 500 480 100 20 20 1]
                      (Some "2025-06-30 a 2025-07-06") sample_clock))
              "w2.csv" [sample_raw "A" "s1" 60 59 10 5 1 0]
              (Some "2025-07-07 a 2025-07-13") sample_clock
              two_small_weeks
              (map (process_row (Some "2025-07-07 a 2025-07-13"))
                   [sample_raw "A" "s1" 60 59 10 5 1 0]))
    as (l & Hl & Hget & Hcur & _ & _ & Hlen).
  - vm_compute. reflexivity.
  - injection Hl as <-. eexists. split; [exact Hget|]. split; [exact Hcur|].
    exact Hlen.
Defined.

(** ** What the methods keep *)

Lemma combine_all_weeks_store self :
  historical_data (fst (combine_all_weeks self)) = historical_data self
  /\ metadata_weeks (fst (combine_all_weeks self)) = metadata_weeks self
  /\ mapping_data (fst (combine_all_weeks self)) = mapping_data self.
Proof.
  unfold combine_all_weeks. destruct (historical_data self) eqn:E; simpl; auto.
Qed.

Lemma ensure_combined_store self :
  historical_data (fst (ensure_combined self)) = historical_data self
  /\ metadata_weeks (fst (ensure_combined self)) = metadata_weeks self
  /\ mapping_data (fst (ensure_combined self)) = mapping_data self.
Proof.
  unfold ensure_combined. destruct (all_weeks_data self); simpl; auto.
  apply combine_all_weeks_store.
Qed.

Lemma get_automation_performance_state self min_emails :
  fst (get_automation_performance self min_emails) = fst (ensure_combined self).
Proof.
  unfold get_automation_performance, merge_with_mapping.
  destruct (ensure_combined self) as [s1 [all_data|e]]; simpl; trivial.
  destruct (mapping_data s1); trivial.
Qed.

Lemma get_weekly_automation_performance_state self :
  fst (get_weekly_automation_performance self) = fst (ensure_combined self).
Proof.
  unfold get_weekly_automation_performance, merge_with_mapping.
  destruct (ensure_combined self) as [s1 [all_data|e]]; simpl; trivial.
  destruct (mapping_data s1); trivial.
Qed.

Lemma analyze_subject_performance_state self min_emails :
  fst (analyze_subject_performance self min_emails) = fst (ensure_combined self).
Proof.
  unfold analyze_subject_performance.
  destruct (ensure_combined self) as [s1 [all_data|e]]; trivial.
Qed.

Lemma get_week_over_week_changes_state pad self :
  fst (get_week_over_week_changes pad self) = fst (ensure_combined self).
Proof.
  unfold get_week_over_week_changes.
  rewrite <- get_weekly_automation_performance_state.
  destruct (get_weekly_automation_performance self) as [s1 [w|e]]; trivial.
Qed.

Lemma NoDup_snoc {A : Type} (l : list A) x :
  NoDup l -> ~ In x l -> NoDup (l ++ [x]).
Proof.
  intros Hl Hx. apply NoDup_rev in Hl.
  rewrite <- (rev_involutive (l ++ [x])). apply NoDup_rev.
  rewrite rev_app_distr. simpl. constructor; trivial.
  now rewrite <- in_rev.
Qed.

Lemma load_weekly_data_consistent self file_path csv week_label now :
  store_consistent self ->
  store_consistent (fst (load_weekly_data self file_path csv week_label now)).
Proof.
  intros [Hk Hn]. unfold load_weekly_data.
  destruct (convert_percent_columns percent_columns csv) as [df0|];
    [|now split].
  set (label := resolve_week_label file_path week_label now).
  assert (store_consistent
            (mkProcessor
               (dict_set label (map (process_row label) df0) (historical_data self))
               (mapping_data self) (Some (map (process_row label) df0))
               (all_weeks_data self)
               (if label_in label (metadata_weeks self)
                then metadata_weeks self
                else (metadata_weeks self ++ [label])%list))) as H.
  { unfold store_consistent. simpl. rewrite dict_set_keys, Hk. split; trivial.
    destruct (label_in label (metadata_weeks self)) eqn:E; trivial.
    apply NoDup_snoc; trivial. intros Hin.
    apply label_in_iff in Hin. congruence. }
  now destruct label.
Qed.

Lemma load_weekly_data_tagged self file_path csv week_label now :
  store_tagged self ->
  store_tagged (fst (load_weekly_data self file_path csv week_label now)).
Proof.
  intros Ht. unfold load_weekly_data.
  destruct (convert_percent_columns percent_columns csv) as [df0|]; trivial.
  set (label := resolve_week_label file_path week_label now).
  assert (store_tagged
            (mkProcessor
               (dict_set label (map (process_row label) df0) (historical_data self))
               (mapping_data self) (Some (map (process_row label) df0))
               (all_weeks_data self)
               (if label_in label (metadata_weeks self)
                then metadata_weeks self
                else (metadata_weeks self ++ [label])%list))) as H.
  { intros k t r Hin Hr. simpl in Hin. apply dict_set_in in Hin.
    destruct Hin as [[= -> ->]|Hin].
    - apply in_map_iff in Hr. destruct Hr as (x & <- & _). reflexivity.
    - now apply (Ht k t r). }
  now destruct label.
Qed.

Lemma after_store_kept self c :
  (forall file_path csv week_label now, c <> LoadWeekly file_path csv week_label now) ->
  historical_data (after self c) = historical_data self
  /\ metadata_weeks (after self c) = metadata_weeks self.
Proof.
  intros H. destruct c; simpl.
  - now destruct (H file_path csv week_label now).
  - auto.
  - pose proof (combine_all_weeks_store self). tauto.
  - rewrite get_automation_performance_state.
    pose proof (ensure_combined_store self). tauto.
  - rewrite get_weekly_automation_performance_state.
    pose proof (ensure_combined_store self). tauto.
  - rewrite analyze_subject_performance_state.
    pose proof (ensure_combined_store self). tauto.
  - rewrite get_week_over_week_changes_state.
    pose proof (ensure_combined_store self). tauto.
Qed.

Lemma after_keeps_store_invariants self c :
  store_consistent self /\ store_tagged self ->
  store_consistent (after self c) /\ store_tagged (after self c).
Proof.
  intros [Hc Ht].
  destruct c as [file_path csv week_label now| | | | | |];
    [simpl; split;
     [now apply load_weekly_data_consistent|now apply load_weekly_data_tagged]
    |..];
    (match goal with
     | |- context [after self ?c] =>
         destruct (after_store_kept self c) as [Hh Hm]; [intros; discriminate|]
     end;
     unfold store_consistent, store_tagged in *; rewrite Hh, Hm; now split).
Qed.

(** X4: after any sequence of calls on a new processor, whatever their
    outcomes, the weeks listed by [get_available_weeks] are the keys of the
    store, in the same order and each once, and every row of a stored
    table carries the label of its table. *)
Theorem session_store_invariants calls :
  get_available_weeks (session calls) = map fst (historical_data (session calls))
  /\ NoDup (get_available_weeks (session calls))
  /\ store_tagged (session calls).
Proof.
  assert (H : store_consistent (session calls) /\ store_tagged (session calls)).
  { unfold session.
    assert (H0 : store_consistent init /\ store_tagged init).
    { split; [split; [reflexivity|constructor]|intros k t r []]. }
    revert H0. generalize init as p.
    induction calls as [|c calls IH]; simpl; intros p Hp; trivial.
    apply IH. now apply after_keeps_store_invariants. }
  destruct H as [[Hk Hn] Ht]. unfold get_available_weeks. auto.
Qed.

(** ** The combined table *)

Lemma filter_other_label k h :
  (forall k' t r, In (k', t) h -> In r t -> Semana r = k') ->
  ~ In k (map fst h) ->
  filter (fun r => label_eqb (Semana r) k) (List.concat (map snd h)) = [].
Proof.
  induction h as [|[k' t'] h IH]; simpl; intros Ht Hk; trivial.
  rewrite filter_app, IH.
  - rewrite app_nil_r.
    assert (Hall : forall r, In r t' -> label_eqb (Semana r) k = false).
    { intros r Hr. rewrite (Ht k' t' r) by auto. apply label_eqb_neq. tauto. }
    clear -Hall. induction t' as [|r t IH]; simpl; trivial.
    rewrite (Hall r) by (now left). apply IH. intros r' Hr'. apply Hall. now right.
  - intros k1 t r H1 H2. apply (Ht k1 t r); auto.
  - tauto.
Qed.

Lemma filter_own_label k t :
  (forall r, In r t -> Semana r = k) ->
  filter (fun r => label_eqb (Semana r) k) t = t.
Proof.
  induction t as [|r t IH]; simpl; intros H; trivial.
  rewrite (H r) by (now left). rewrite label_eqb_refl. f_equal.
  apply IH. intros r' Hr'. apply H. now right.
Qed.

Lemma filter_concat_label k t h :
  (forall k' t' r, In (k', t') h -> In r t' -> Semana r = k') ->
  NoDup (map fst h) ->
  dict_get k h = Some t ->
  filter (fun r => label_eqb (Semana r) k) (List.concat (map snd h)) = t.
Proof.
  induction h as [|[k' t'] h IH]; simpl; intros Ht Hn Hg; [discriminate|].
  inversion Hn as [|? ? Hk' Hn']; subst. rewrite filter_app.
  destruct (label_eqb k' k) eqn:E.
  - apply label_eqb_eq in E. subst k'. injection Hg as ->.
    rewrite filter_own_label by (intros r Hr; apply (Ht k t r); auto).
    rewrite filter_other_label; trivial.
    + apply app_nil_r.
    + intros k1 t1 r H1 H2. apply (Ht k1 t1 r); auto.
  - rewrite IH; trivial.
    + assert (Hall : forall r, In r t' -> label_eqb (Semana r) k = false).
      { intros r Hr. rewrite (Ht k' t' r) by auto. apply label_eqb_neq.
        intros ->. now rewrite label_eqb_refl in E. }
      clear -Hall. induction t' as [|r t1 IH]; simpl; trivial.
      rewrite (Hall r) by (now left). apply IH. intros r' Hr'. apply Hall. now right.
    + intros k1 t1 r H1 H2. apply (Ht k1 t1 r); auto.
Qed.

(** X5: [combine_all_weeks] raises [ValueError] exactly when no week is
    stored.  After any sequence of calls on a new processor, the table it
    returns is kept in [all_weeks_data], and the rows of it that carry
    the label of a stored week are the table of that week, row for row
    and in order. *)
Theorem combine_all_weeks_by_week calls :
  let self := session calls in
  (snd (combine_all_weeks self) = Raise ValueError <-> historical_data self = [])
  /\ (forall self' all_data k t,
        combine_all_weeks self = (self', Ok all_data) ->
        all_weeks_data self' = Some all_data
        /\ (dict_get k (historical_data self) = Some t ->
            filter (fun r => label_eqb (Semana r) k) all_data = t)).
Proof.
  intros self. destruct (session_store_invariants calls) as (Hk & Hn & Ht).
  fold self in Hk, Hn, Ht. unfold get_available_weeks in *.
  unfold combine_all_weeks. split.
  - destruct (historical_data self); simpl; split; congruence.
  - intros self' all_data k t.
    destruct (historical_data self) as [|e h] eqn:E; [discriminate|].
    intros [= <- <-]. split; trivial.
    intros Hg. apply (filter_concat_label k t (e :: h)); trivial.
    + intros k' t' r H1 H2. apply (Ht k' t' r); trivial. now rewrite E.
    + rewrite Hk in Hn. exact Hn.
Qed.

Lemma combine_all_weeks_by_week_witness :
  exists all_data,
    snd (combine_all_weeks two_small_weeks) = Ok all_data
    /\ filter (fun r => label_eqb (Semana r) (Some "2025-07-07 a 2025-07-13")) all_data
       = map (process_row (Some "2025-07-07 a 2025-07-13"))
             [sample_raw "A" "s1" 60 59 10 5 1 0].
Proof.
  destruct (combine_all_weeks_by_week
              [LoadMapping sample_mapping;
               LoadWeekly "w1.csv"
                 [sample_raw "A" "s1" 60 58 20 5 2 0;
                  sample_raw "C" "s3" 500 480 100 20 20 1]
                 (Some "2025-06-30 a 2025-07-06") sample_clock;
               LoadWeekly "w2.csv" [sample_raw "A" "s1" 60 59 10 5 1 0]
                 (Some "2025-07-07 a 2025-07-13") sample_clock]) as [_ H].
  destruct (H (fst (combine_all_weeks two_small_weeks))
              (List.concat (map snd (historical_data two_small_weeks)))
              (Some "2025-07-07 a 2025-07-13")
              (map (process_row (Some "2025-07-07 a 2025-07-13"))
                   [sample_raw "A" "s1" 60 59 10 5 1 0])) as [_ Hf].
  - vm_compute. reflexivity.
  - eexists. split; [vm_compute; reflexivity|].
    apply Hf. vm_compute. reflexivity.
Defined.

(** ** The cached table *)

Lemma load_weekly_data_keeps_cache self file_path csv week_label now :
  all_weeks_data (fst (load_weekly_data self file_path csv week_label now))
  = all_weeks_data self
  /\ mapping_data (fst (load_weekly_data self file_path csv week_label now))
     = mapping_data self.
Proof.
  unfold load_weekly_data.
  destruct (convert_percent_columns percent_columns csv); [|now split].
  now destruct (resolve_week_label file_path week_label now).
Qed.

(** X6: once the combined table is cached, loading a week changes nothing
    in what the aggregations return: [load_weekly_data] does not refresh
    [all_weeks_data], and the three aggregations read the cached table. *)
Theorem loaded_week_not_seen_by_cached_aggregations
  self cached file_path csv week_label now min_emails pad :
  all_weeks_data self = Some cached ->
  let self' := fst (load_weekly_data self file_path csv week_label now) in
  snd (get_automation_performance self' min_emails)
  = snd (get_automation_performance self min_emails)
  /\ snd (get_weekly_automation_performance self')
     = snd (get_weekly_automation_performance self)
  /\ snd (get_week_over_week_changes pad self')
     = snd (get_week_over_week_changes pad self)
  /\ snd (analyze_subject_performance self' min_emails)
     = snd (analyze_subject_performance self min_emails).
Proof.
  intros Hc self'.
  destruct (load_weekly_data_keeps_cache self file_path csv week_label now)
    as [Ha Hm].
  fold self' in Ha, Hm. rewrite Hc in Ha.
  assert (Hw : snd (get_weekly_automation_performance self')
               = snd (get_weekly_automation_performance self)).
  { unfold get_weekly_automation_performance, ensure_combined, merge_with_mapping.
    rewrite Ha, Hc, Hm. now destruct (mapping_data self). }
  repeat split; trivial.
  - unfold get_automation_performance, ensure_combined, merge_with_mapping.
    rewrite Ha, Hc, Hm. now destruct (mapping_data self).
  - unfold get_week_over_week_changes.
    destruct (get_weekly_automation_performance self') as [s1 r1].
    destruct (get_weekly_automation_performance self) as [s2 r2].
    simpl in Hw. subst r2. now destruct r1.
  - unfold analyze_subject_performance, ensure_combined. now rewrite Ha, Hc.
Qed.

Lemma loaded_week_not_seen_by_cached_aggregations_witness :
  snd (get_automation_performance
         (fst (load_weekly_data (fst (get_automation_performance two_small_weeks 100))
                 "w3.csv" [sample_raw "A" "s1" 900 900 300 50 0 0]
                 (Some "2025-07-14 a 2025-07-20") sample_clock)) 100)
  = snd (get_automation_performance
           (fst (get_automation_performance two_small_weeks 100)) 100).
Proof.
  apply (loaded_week_not_seen_by_cached_aggregations
           (fst (get_automation_performance two_small_weeks 100))
           (List.concat (map snd (historical_data two_small_weeks)))
           "w3.csv" [sample_raw "A" "s1" 900 900 300 50 0 0]
           (Some "2025-07-14 a 2025-07-20") sample_clock 100 true).
  vm_compute. reflexivity.
Defined.

(** X7: [get_automation_performance] raises [ValueError] when no table is
    cached and no week is stored, and leaves the object as it was; it
    raises [ValueError] too when no mapping is loaded, but only after the
    weeks were combined: when no table was cached and a week is stored,
    the object has the combined table cached after the exception. *)
Theorem get_automation_performance_errors self min_emails :
  (all_weeks_data self = None -> historical_data self = [] ->
   get_automation_performance self min_emails = (self, Raise ValueError))
  /\ (mapping_data self = None ->
      snd (get_automation_performance self min_emails) = Raise ValueError
      /\ (all_weeks_data self = None -> historical_data self <> [] ->
          all_weeks_data (fst (get_automation_performance self min_emails))
          = Some (List.concat (map snd (historical_data self))))).
Proof.
  unfold get_automation_performance, ensure_combined, combine_all_weeks.
  split.
  - intros -> ->. reflexivity.
  - intros Hm. destruct (all_weeks_data self) as [d|] eqn:Ea.
    + rewrite Hm. split; [reflexivity|discriminate].
    + destruct (historical_data self) as [|e h] eqn:Eh.
      * split; [reflexivity|congruence].
      * cbn [mapping_data]. rewrite Hm. split; [reflexivity|]. reflexivity.
Qed.

Lemma get_automation_performance_errors_witness :
  get_automation_performance init 100 = (init, Raise ValueError)
  /\ snd (get_automation_performance
            (fst (load_weekly_data init "w1.csv" [sample_raw "A" "s1" 60 58 20 5 2 0]
                    (Some "Week 1") sample_clock)) 100) = Raise ValueError
  /\ all_weeks_data
       (fst (get_automation_performance
               (fst (load_weekly_data init "w1.csv" [sample_raw "A" "s1" 60 58 20 5 2 0]
                       (Some "Week 1") sample_clock)) 100))
     <> None.
Proof.
  split.
  - apply (proj1 (get_automation_performance_errors init 100)); reflexivity.
  - destruct (proj2 (get_automation_performance_errors
                       (fst (load_weekly_data init "w1.csv"
                               [sample_raw "A" "s1" 60 58 20 5 2 0]
                               (Some "Week 1") sample_clock)) 100) eq_refl)
      as [Hraise Hcache].
    split; [exact Hraise|].
    rewrite Hcache; [discriminate|reflexivity|discriminate].
Defined.

(** ** The summaries of the weeks *)

Lemma nsum_from_finite l : forall q,
  Forall finite_or_missing l ->
  is_finite (fold_left (fun acc x => if isnan x then acc else nadd acc x) l (Fin q)).
Proof.
  induction l as [|x l IH]; simpl; intros q H; trivial.
  inversion H as [|? ? Hx Hl]; subst.
  destruct x as [| | |a]; simpl in *; try tauto; now apply IH.
Qed.

Lemma nsum_finite l : Forall finite_or_missing l -> is_finite (nsum l).
Proof. apply nsum_from_finite. Qed.

Lemma guarded_ratio_finite a b :
  is_finite a -> is_finite b -> is_finite (guarded_ratio a b).
Proof.
  destruct a as [| | |qa], b as [| | |qb]; simpl; try tauto. intros _ _.
  unfold guarded_ratio, ngt, fin_z.
  destruct (qb ?= inject_Z 0)%Q eqn:E; simpl; trivial.
  assert (Hs : qsign qb = Gt).
  { unfold qsign. unfold Qcompare in E. simpl in E.
    rewrite Z.mul_1_r in E. exact E. }
  now rewrite Hs.
Qed.

Lemma sum_group_finite (df : table) :
  Forall (fun r => finite_counts (vol r)) df ->
  let t := sum_group vol df in
  is_finite (sum_Sent t) /\ is_finite (sum_Delivered t) /\
  is_finite (sum_Opened t) /\ is_finite (sum_Clicked t) /\
  is_finite (sum_Bounced t) /\ is_finite (sum_Unsubscribed t).
Proof.
  intros H. simpl.
  repeat split; apply nsum_finite; apply Forall_map;
    (eapply Forall_impl; [|exact H]); intros r Hr; unfold finite_counts in Hr; tauto.
Qed.

Lemma whole_counts_finite c : whole_counts c -> finite_counts c.
Proof.
  assert (H : forall x, whole_or_missing x -> finite_or_missing x)
    by (intros [| | |q]; simpl; tauto).
  unfold whole_counts, finite_counts. intuition.
Qed.

(** X8: when the volume cells of a week are whole numbers, none negative,
    or missing, and the six totals stay below 2^53 (where the sums of
    [int64] and of [float64] are exact), every total and every rate of
    its summary is a finite number: neither NaN nor an infinity, whatever
    the totals (a zero denominator gives the rate 0). *)
Theorem week_summary_rates_finite self week_label s df :
  get_week_summary self week_label = Ok s ->
  dict_get (Some (semana s)) (historical_data self) = Some df ->
  Forall (fun r => whole_counts (vol r)) df ->
  exact_totals (week_totals df) ->
  is_finite (total_sent s) /\ is_finite (total_delivered s) /\
  is_finite (total_opened s) /\ is_finite (total_clicked s) /\
  is_finite (total_bounced s) /\ is_finite (total_unsubscribed s) /\
  is_finite (delivery_rate s) /\ is_finite (open_rate s) /\
  is_finite (click_rate s) /\ is_finite (bounce_rate s) /\
  is_finite (unsubscribe_rate s) /\ is_finite (ctor s).
Proof.
  unfold get_week_summary.
  destruct (match week_label with
            | Some _ => Ok week_label
            | None => match current_week_data self with
                      | Some [] => Raise IndexError
                      | Some (r :: _) => Ok (Semana r)
                      | None => Ok week_label
                      end
            end) as [[l|]|e] eqn:El.
  2,3: destruct week_label as [w|];
       [|destruct (current_week_data self) as [[|r c]|]]; simpl in *;
       try rewrite El; discriminate.
  assert (Hrun :
    match dict_get (Some l) (historical_data self) with
    | Some df0 =>
        let t := week_totals df0 in
        Ok (mkSummary l (sum_Sent t) (sum_Delivered t) (sum_Opened t)
              (sum_Clicked t) (sum_Bounced t) (sum_Unsubscribed t)
              (guarded_ratio (sum_Delivered t) (sum_Sent t))
              (guarded_ratio (sum_Opened t) (sum_Delivered t))
              (guarded_ratio (sum_Clicked t) (sum_Delivered t))
              (guarded_ratio (sum_Bounced t) (sum_Sent t))
              (guarded_ratio (sum_Unsubscribed t) (sum_Delivered t))
              (guarded_ratio (sum_Clicked t) (sum_Opened t)))
    | None => Raise ValueError
    end = Ok s -> dict_get (Some (semana s)) (historical_data self) = Some df ->
    Forall (fun r => whole_counts (vol r)) df ->
    exact_totals (week_totals df) ->
    is_finite (total_sent s) /\ is_finite (total_delivered s) /\
    is_finite (total_opened s) /\ is_finite (total_clicked s) /\
    is_finite (total_bounced s) /\ is_finite (total_unsubscribed s) /\
    is_finite (delivery_rate s) /\ is_finite (open_rate s) /\
    is_finite (click_rate s) /\ is_finite (bounce_rate s) /\
    is_finite (unsubscribe_rate s) /\ is_finite (ctor s)).
  { destruct (dict_get (Some l) (historical_data self)) as [df0|] eqn:Eg;
      [|discriminate].
    intros [= <-]. simpl. rewrite Eg. intros [= ->] Hw _.
    assert (Hf : Forall (fun r => finite_counts (vol r)) df).
    { eapply Forall_impl; [|exact Hw]. intros r. apply whole_counts_finite. }
    destruct (sum_group_finite df Hf) as (H1 & H2 & H3 & H4 & H5 & H6).
    unfold week_totals.
    repeat split; trivial; now apply guarded_ratio_finite. }
  destruct week_label as [w|];
    [|destruct (current_week_data self) as [[|r c]|]]; simpl in El;
    try discriminate; injection El as El; try subst; try rewrite El;
    exact Hrun.
Qed.

Lemma week_summary_rates_finite_witness :
  exists s, get_week_summary no_opens None = Ok s /\ is_finite (ctor s)
            /\ is_finite (open_rate s).
Proof.
  destruct (get_week_summary no_opens None) as [s|] eqn:E;
    [|vm_compute in E; discriminate].
  exists s. split; trivial.
  destruct (dict_get (Some (semana s)) (historical_data no_opens)) as [df|] eqn:Eg.
  - assert (Hf : Forall (fun r => whole_counts (vol r)) df
                 /\ exact_totals (week_totals df)).
    { vm_compute in E. injection E as <-. vm_compute in Eg. injection Eg as <-.
      split; [|vm_compute; tauto].
      constructor; [|constructor].
      unfold whole_counts. cbn.
      repeat split; (eexists; split; [|reflexivity]; lia). }
    pose proof (week_summary_rates_finite no_opens None s df E Eg
                  (proj1 Hf) (proj2 Hf)). tauto.
  - vm_compute in E. injection E as <-. vm_compute in Eg. discriminate.
Defined.

Lemma dict_get_key {V : Type} k (d : list (option string * V)) :
  In k (map fst d) -> exists v, dict_get k d = Some v.
Proof.
  induction d as [|[k' v'] d IH]; simpl; [tauto|].
  intros [->|H].
  - rewrite label_eqb_refl. eauto.
  - destruct (label_eqb k' k); eauto.
Qed.

Lemma get_week_summary_stored self l :
  In (Some l) (map fst (historical_data self)) ->
  exists s, get_week_summary self (Some l) = Ok s /\ semana s = l.
Proof.
  intros H. apply dict_get_key in H. destruct H as [df Hdf].
  unfold get_week_summary. rewrite Hdf. eexists. split; reflexivity.
Qed.

Lemma summaries_of_stored self weeks :
  (forall w, In w weeks -> w <> None /\ In w (map fst (historical_data self))) ->
  exists ss, summaries_of self weeks = Ok ss
             /\ map (fun s => Some (semana s)) ss = weeks.
Proof.
  induction weeks as [|w weeks IH]; simpl; intros H.
  - exists []. auto.
  - destruct (H w (or_introl eq_refl)) as [Hw Hin].
    destruct w as [l|]; [|congruence].
    destruct (get_week_summary_stored self l Hin) as (s & -> & Hs).
    destruct IH as (ss & -> & Hss); [intros w Hw'; apply H; now right|].
    exists (s :: ss). simpl. now rewrite Hs, Hss.
Qed.

(** X9: when the weeks of the metadata are the keys of the store and all
    have a label, [get_all_weeks_summary] raises nothing and returns one
    summary per week, in the order in which the weeks were first loaded. *)
Theorem get_all_weeks_summary_order self :
  store_consistent self ->
  ~ In None (metadata_weeks self) ->
  exists ss, get_all_weeks_summary self = Ok ss
             /\ map (fun s => Some (semana s)) ss = get_available_weeks self.
Proof.
  intros [Hk _] Hn. unfold get_all_weeks_summary, get_available_weeks.
  apply summaries_of_stored. intros w Hw. split.
  - intros ->. tauto.
  - now rewrite Hk.
Qed.

Lemma map_Some_inj {A : Type} (a b : list A) : map Some a = map Some b -> a = b.
Proof.
  revert b. induction a as [|x a IH]; intros [|y b] H; try discriminate; trivial.
  injection H as -> H. f_equal. now apply IH.
Qed.

Lemma get_all_weeks_summary_order_witness :
  exists ss, get_all_weeks_summary week_9_then_10 = Ok ss
             /\ map semana ss = ["Week 9"; "Week 10"].
Proof.
  destruct (get_all_weeks_summary_order week_9_then_10) as (ss & Hss & Hw).
  - split; [reflexivity|]. vm_compute. repeat constructor; simpl; intuition discriminate.
  - vm_compute. intuition discriminate.
  - exists ss. split; trivial.
    assert (E : get_available_weeks week_9_then_10 = [Some "Week 9"; Some "Week 10"])
      by (vm_compute; reflexivity).
    rewrite E in Hw.
    apply map_Some_inj. rewrite map_map. exact Hw.
Defined.

(** ** The grouped tables come sorted *)

Section SortedKeys.
Context {R K : Type}.
Variable cmp : K -> K -> comparison.
Variable key_of : R -> option K.
Hypothesis cmp_gt_lt : forall a b, cmp a b = Gt -> cmp b a = Lt.

Let lt (a b : K) : Prop := cmp a b = Lt.

Lemma insert_key_Sorted k ks :
  Sorted lt ks -> Sorted lt (insert_key cmp k ks).
Proof.
  induction ks as [|k' ks IH]; simpl; intros H.
  - repeat constructor.
  - destruct (cmp k k') eqn:E; trivial.
    + constructor; trivial. now constructor.
    + inversion H as [|? ? Hs Hh]; subst.
      constructor; [now apply IH|].
      destruct ks as [|k'' ks]; simpl.
      * constructor. now apply cmp_gt_lt.
      * inversion Hh; subst.
        destruct (cmp k k''); constructor; trivial. now apply cmp_gt_lt.
Qed.

Lemma collect_keys_Sorted rows : forall ks,
  Sorted lt ks -> Sorted lt (collect_keys cmp key_of ks rows).
Proof.
  induction rows as [|r rows IH]; simpl; intros ks H; trivial.
  apply IH. destruct (key_of r); trivial. now apply insert_key_Sorted.
Qed.

Lemma group_keys_Sorted rows : Sorted lt (group_keys cmp key_of rows).
Proof. apply collect_keys_Sorted. constructor. Qed.
End SortedKeys.

Lemma groupby_sum_keys {R K : Type} cmp (key_of : R -> option K) vol_of rows :
  map key (map add_rates (groupby_sum cmp key_of vol_of rows))
  = group_keys cmp key_of rows.
Proof.
  unfold groupby_sum. rewrite !map_map. simpl. apply map_id.
Qed.

Lemma sort_values_sorted l : Sorted key_lt (map key l) -> sort_values l = l.
Proof.
  unfold sort_values. induction l as [|m l IH]; simpl; intros H; trivial.
  inversion H as [|? ? Hs Hh]; subst. rewrite IH by assumption.
  destruct l as [|m' l]; simpl; trivial.
  inversion Hh as [|? ? Hlt]; subst. unfold key_lt in Hlt. now rewrite Hlt.
Qed.

(** X11: the table of [get_week_over_week_changes] has the rows of the
    table of [get_weekly_automation_performance], in the same order: its
    [sort_values] moves no row, the grouped table being sorted already;
    only the three change columns are added. *)
Theorem week_over_week_keeps_rows pad self self' out :
  get_week_over_week_changes pad self = (self', Ok out) ->
  get_weekly_automation_performance self = (self', Ok (map perf out)).
Proof.
  intros H. apply get_week_over_week_changes_ok in H.
  destruct H as (w & Hw & ->). rewrite week_over_week_perf.
  rewrite sort_values_sorted; trivial.
  apply get_weekly_automation_performance_ok in Hw.
  destruct Hw as (all_data & mapping & _ & _ & ->).
  unfold weekly_metrics. rewrite groupby_sum_keys.
  apply (group_keys_Sorted pair_compare automation_week_key pair_compare_gt_lt).
Qed.

Lemma week_over_week_keeps_rows_witness :
  snd (get_weekly_automation_performance week_9_then_10)
  = Ok (map perf (week_9_then_10_changes true)).
Proof.
  rewrite (week_over_week_keeps_rows true week_9_then_10
             (fst (get_week_over_week_changes true week_9_then_10))
             (week_9_then_10_changes true));
    [reflexivity|vm_compute; reflexivity].
Defined.

(** ** Two volume filters in a row *)

Lemma nge_fin_iff q r : nge (Fin q) (Fin r) = true <-> (r <= q)%Q.
Proof.
  unfold nge. destruct (q ?= r)%Q eqn:E; split; trivial; try discriminate.
  - intros _. apply Qeq_alt in E. rewrite E. apply Qle_refl.
  - intros H. apply Qlt_alt in E. exfalso. now apply (Qlt_not_le q r).
  - intros _. apply Qgt_alt in E. now apply Qlt_le_weak.
Qed.

Lemma nge_max x a b :
  nge x (fin_z (Z.max a b)) = andb (nge x (fin_z a)) (nge x (fin_z b)).
Proof.
  destruct x as [| | |q]; trivial. unfold fin_z.
  apply eq_true_iff_eq. rewrite andb_true_iff, !nge_fin_iff.
  destruct (Z.max_spec a b) as [[Hlt ->]|[Hle ->]].
  - split; [|tauto]. intros H. split; trivial.
    apply Qle_trans with (inject_Z b); trivial. rewrite <- Zle_Qle. lia.
  - split; [|tauto]. intros H. split; trivial.
    apply Qle_trans with (inject_Z a); trivial. now rewrite <- Zle_Qle.
Qed.

(** X12: filtering the table of [get_automation_performance(a)] once more
    with the threshold [b], as the automation page does with the default
    [a = 100] and the value of its slider, gives the table of the larger of
    the two thresholds: a second threshold below the first one shows
    nothing more. *)
Theorem second_volume_filter merged_data a b :
  filter_min_emails b (automation_metrics merged_data a)
  = automation_metrics merged_data (Z.max a b).
Proof.
  unfold automation_metrics, filter_min_emails.
  generalize (map add_rates
                (groupby_sum str_compare automation_key merged_vol merged_data)).
  induction l as [|m l IH]; simpl; trivial.
  rewrite nge_max.
  destruct (nge (sum_Sent (sums m)) (fin_z a)); simpl.
  - destruct (nge (sum_Sent (sums m)) (fin_z b)); now rewrite IH.
  - exact IH.
Qed.

(** ** A mapping with one entry per campaign *)

Lemma matches_at_most_one mapping r :
  NoDup (map map_message_name mapping) ->
  (List.length (matches mapping r) <= 1)%nat.
Proof.
  unfold matches. induction mapping as [|e es IH]; simpl; intros H; [lia|].
  inversion H as [|? ? Hn Hd]; subst. specialize (IH Hd).
  destruct (label_eqb (map_message_name e) (Message_name r)) eqn:E; simpl;
    [|lia].
  apply label_eqb_eq in E.
  replace (filter _ es) with (@nil mapping_row); [simpl; lia|].
  symmetry. clear IH Hd H. induction es as [|e' es IH]; simpl; trivial.
  destruct (label_eqb (map_message_name e') (Message_name r)) eqn:E'.
  - apply label_eqb_eq in E'. exfalso. apply Hn. simpl. left. congruence.
  - apply IH. intros Hin. apply Hn. now right.
Qed.

(** X13: when no two entries of the mapping have the same ['Message name'],
    the join returns exactly the rows of the table, once each and in
    order: no row is repeated and no volume is counted twice. *)
Theorem merge_with_unique_mapping self df mapping out :
  mapping_data self = Some mapping ->
  NoDup (map map_message_name mapping) ->
  merge_with_mapping self (Some df) = Ok out ->
  map left out = df.
Proof.
  intros Hm Hn. unfold merge_with_mapping. rewrite Hm. intros [= <-].
  rewrite merge_left_rows. induction df as [|r df IH]; [reflexivity|].
  cbn [flat_map]. rewrite IH.
  pose proof (matches_at_most_one mapping r Hn) as H.
  destruct (List.length (matches mapping r)) as [|[|n]]; simpl; trivial. lia.
Qed.

Lemma merge_with_unique_mapping_witness :
  map left (merge_left (List.concat (map snd (historical_data two_small_weeks)))
                       sample_mapping)
  = List.concat (map snd (historical_data two_small_weeks)).
Proof.
  apply (merge_with_unique_mapping two_small_weeks
           (List.concat (map snd (historical_data two_small_weeks)))
           sample_mapping).
  - reflexivity.
  - repeat constructor; simpl; intuition discriminate.
  - reflexivity.
Defined.

(** ** Forward fill *)

Lemma pct_change_no_missing l : forall seen,
  Forall (fun x => isnan (snd x) = false) l ->
  pct_change true seen l = pct_change false seen l.
Proof.
  induction l as [|[g v] l IH]; simpl; intros seen H; trivial.
  inversion H as [|? ? Hv Hl]; subst. simpl in Hv. rewrite Hv. simpl.
  f_equal. now apply IH.
Qed.

Lemma insert_sorted_Forall (P : metrics (string * string) -> Prop) m l :
  P m -> Forall P l -> Forall P (insert_sorted m l).
Proof.
  induction l as [|m' l IH]; simpl; intros Hm Hl.
  - now constructor.
  - inversion Hl; subst.
    destruct (leb_of (pair_compare (key m) (key m'))); constructor; auto.
Qed.

Lemma sort_values_Forall (P : metrics (string * string) -> Prop) l :
  Forall P l -> Forall P (sort_values l).
Proof.
  unfold sort_values. induction 1; simpl; [constructor|].
  now apply insert_sorted_Forall.
Qed.

(** X14: when no rate of the weekly table is NaN, the changes are the same
    with and without the forward fill of [pct_change]: the table does not
    depend on the version of pandas. *)
Theorem changes_without_missing_rates weekly_perf :
  Forall (fun m => isnan (Open_Rate m) = false /\ isnan (Click_Rate m) = false
                   /\ isnan (CTOR m) = false) weekly_perf ->
  week_over_week true weekly_perf = week_over_week false weekly_perf.
Proof.
  intros H. apply sort_values_Forall in H.
  unfold week_over_week, change_column.
  rewrite !(pct_change_no_missing _ []); trivial;
    apply Forall_map; (eapply Forall_impl; [|exact H]); simpl; tauto.
Qed.

Lemma changes_without_missing_rates_witness :
  week_9_then_10_changes true = week_9_then_10_changes false.
Proof.
  assert (E : forall pad,
             week_9_then_10_changes pad
             = week_over_week pad
                 (weekly_metrics
                    (merge_left (List.concat (map snd (historical_data week_9_then_10)))
                                sample_mapping)))
    by (intros pad; reflexivity).
  rewrite !E. apply changes_without_missing_rates.
  vm_compute. repeat constructor.
Defined.

(** ** The files of the weeks *)

Lemma replace_char_chars old new s c :
  In c (list_ascii_of_string (replace_char old new s)) ->
  c = new \/ (c <> old /\ In c (list_ascii_of_string s)).
Proof.
  induction s as [|a s IH]; simpl; [tauto|].
  intros [H|H].
  - destruct (Ascii.eqb a old) eqn:E; [now left|].
    right. split; [|now left]. subst c. now apply Ascii.eqb_neq.
  - destruct (IH H) as [?|[? ?]]; auto.
Qed.

Lemma replace_char_length old new s :
  String.length (replace_char old new s) = String.length s.
Proof. induction s; simpl; congruence. Qed.

Lemma storage_key_chars l c :
  In c (list_ascii_of_string (storage_key l)) ->
  c <> " "%char /\ c <> "-"%char /\ c <> "/"%char.
Proof.
  unfold storage_key. intros H.
  apply replace_char_chars in H. destruct H as [->|[H1 H]];
    [repeat split; discriminate|].
  apply replace_char_chars in H. destruct H as [->|[H2 H]];
    [repeat split; discriminate|].
  apply replace_char_chars in H. destruct H as [->|[H3 H]];
    [repeat split; discriminate|].
  auto.
Qed.

Lemma list_ascii_of_string_app a b :
  list_ascii_of_string (a ++ b) = (list_ascii_of_string a ++ list_ascii_of_string b)%list.
Proof. induction a; simpl; congruence. Qed.

Lemma week_file_name_no_slash l :
  ~ In "/"%char (list_ascii_of_string (week_file_name l)).
Proof.
  unfold week_file_name. rewrite !list_ascii_of_string_app, !in_app_iff.
  intros [H|[H|H]].
  - simpl in H. intuition discriminate.
  - apply storage_key_chars in H. tauto.
  - simpl in H. intuition discriminate.
Qed.

Lemma append_assoc (a b c : string) : (a ++ b) ++ c = a ++ (b ++ c).
Proof. induction a; simpl; congruence. Qed.

Lemma append_nil_r (a : string) : a ++ "" = a.
Proof. induction a; simpl; congruence. Qed.

Lemma basename_aux_no_slash s : forall cur,
  ~ In "/"%char (list_ascii_of_string s) -> basename_aux cur s = cur ++ s.
Proof.
  induction s as [|c s IH]; simpl; intros cur H.
  - now rewrite append_nil_r.
  - destruct (Ascii.eqb c "/") eqn:E.
    + apply Ascii.eqb_eq in E. tauto.
    + rewrite IH by tauto. now rewrite append_assoc.
Qed.

Lemma basename_aux_after_slash x y : forall cur,
  basename_aux cur (x ++ "/" ++ y) = basename_aux "" y.
Proof.
  induction x as [|c x IH]; simpl; intros cur; trivial.
  destruct (Ascii.eqb c "/"); apply IH.
Qed.

Lemma endswith_slash a : endswith a "/" = true -> exists x, a = x ++ "/".
Proof.
  induction a as [|c a IH]; [discriminate|]. cbn [endswith].
  destruct (String.eqb (String c a) "/") eqn:E.
  - apply String.eqb_eq in E. exists "". now rewrite E.
  - intros H. destruct (IH H) as [x ->]. now exists (String c x).
Qed.

(** X15: the file of a week is directly inside the data directory, whatever
    the label: its storage key has the length of the label and holds
    no space, hyphen or slash, and the last component of its path is
    [week_<key>.pkl]. *)
Theorem week_file_in_data_dir data_dir l :
  basename (week_file data_dir l) = "week_" ++ storage_key l ++ ".pkl"
  /\ String.length (storage_key l) = String.length l
  /\ (forall c, In c (list_ascii_of_string (storage_key l)) ->
                c <> " "%char /\ c <> "-"%char /\ c <> "/"%char).
Proof.
  split; [|split].
  - pose proof (week_file_name_no_slash l) as Hn.
    unfold week_file, path_join, basename.
    change (starts_with_slash (week_file_name l)) with false. cbv iota.
    fold (week_file_name l).
    destruct (String.eqb data_dir "") eqn:E; simpl orb.
    + apply String.eqb_eq in E. subst. cbn [append].
      now rewrite basename_aux_no_slash.
    + destruct (endswith data_dir "/") eqn:E'.
      * destruct (endswith_slash _ E') as [x ->].
        rewrite append_assoc, basename_aux_after_slash.
        now rewrite basename_aux_no_slash.
      * rewrite basename_aux_after_slash. now rewrite basename_aux_no_slash.
  - unfold storage_key. now rewrite !replace_char_length.
  - apply storage_key_chars.
Qed.

(** The processor and the outcome of [load_weekly_data_io] are those of
    [load_weekly_data]. *)
Lemma load_weekly_data_io_processor d self file_path csv week_label now :
  (snd (fst (load_weekly_data_io d self file_path csv week_label now)),
   snd (load_weekly_data_io d self file_path csv week_label now))
  = load_weekly_data self file_path csv week_label now.
Proof.
  unfold load_weekly_data_io, load_weekly_data.
  destruct (convert_percent_columns percent_columns csv); trivial.
  now destruct (resolve_week_label file_path week_label now).
Qed.

Lemma dict_set_fresh {V : Type} k (v : V) d :
  ~ In k (map fst d) -> dict_set k v d = (d ++ [(k, v)])%list.
Proof.
  induction d as [|[k' v'] d IH]; simpl; intros H; trivial.
  rewrite label_eqb_neq by tauto. f_equal. apply IH. tauto.
Qed.

Lemma load_weeks_stored d h2 : forall h1 success,
  (forall k t, In (k, t) h2 ->
     exists l, k = Some l /\ week_pkl d (week_file_name l) = Some t) ->
  NoDup (map fst (h1 ++ h2)%list) ->
  load_weeks d (map fst h2) h1 success = ((h1 ++ h2)%list, Ok success).
Proof.
  induction h2 as [|[k t] h2 IH]; simpl; intros h1 success Hf Hn.
  - now rewrite app_nil_r.
  - destruct (Hf k t (or_introl eq_refl)) as (l & -> & Hl). rewrite Hl.
    rewrite dict_set_fresh.
    + rewrite IH.
      * now rewrite <- app_assoc.
      * intros k' t' H. apply Hf. now right.
      * now rewrite <- app_assoc.
    + rewrite map_app in Hn. simpl in Hn.
      apply NoDup_remove_2 in Hn. intros H. apply Hn. apply in_app_iff. now left.
Qed.

(** X16: when the processor and the files agree, a new processor on the
    same data directory gets back, with [load_saved_data], the store, the
    weeks of the metadata and the mapping, and caches the combined table of
    the store; the flag returned is true exactly when a mapping was
    saved. *)
Theorem reload_restores_store self d :
  in_sync self d ->
  exists self' ok,
    load_saved_data (new_processor d) d = (self', Ok ok)
    /\ historical_data self' = historical_data self
    /\ metadata_weeks self' = metadata_weeks self
    /\ mapping_data self' = mapping_data self
    /\ (ok = true <-> mapping_data self <> None)
    /\ all_weeks_data self'
       = match historical_data self with
         | [] => None
         | h => Some (List.concat (map snd h))
         end.
Proof.
  intros ([Hk Hn] & Hm & Hf & Hp).
  unfold load_saved_data, new_processor. cbn [metadata_weeks historical_data
    mapping_data current_week_data all_weeks_data].
  rewrite Hm, <- Hk.
  rewrite (load_weeks_stored d (historical_data self) []); trivial;
    [|simpl; now rewrite Hk].
  cbn [app]. rewrite Hp.
  destruct (historical_data self) as [|e h] eqn:Eh.
  - simpl. do 2 eexists. split; [reflexivity|]. cbn. repeat split; trivial.
    + destruct (mapping_data self); trivial.
    + destruct (mapping_data self); congruence.
    + destruct (mapping_data self); congruence.
  - unfold combine_all_weeks. cbn [historical_data mapping_data current_week_data
      metadata_weeks fst]. do 2 eexists. split; [reflexivity|].
    cbn. repeat split; trivial.
    + destruct (mapping_data self); trivial.
    + destruct (mapping_data self); congruence.
    + destruct (mapping_data self); congruence.
Qed.

Lemma reload_restores_store_witness :
  exists self' ok,
    load_saved_data (new_processor two_small_weeks_disk) two_small_weeks_disk
    = (self', Ok ok)
    /\ historical_data self' = historical_data two_small_weeks
    /\ mapping_data self' = mapping_data two_small_weeks.
Proof.
  destruct (reload_restores_store two_small_weeks two_small_weeks_disk)
    as (self' & ok & H1 & H2 & _ & H3 & _).
  - split; [split; [reflexivity|]|split; [reflexivity|split; [|reflexivity]]].
    + vm_compute. repeat constructor; simpl; intuition discriminate.
    + intros k t H. vm_compute in H. destruct H as [H|[H|[]]];
        injection H as <- <-; eexists; split; reflexivity.
  - exists self', ok. auto.
Defined.

Lemma dict_set_in_other {V : Type} k0 (v : V) d k t :
  NoDup (map fst d) ->
  In (k, t) (dict_set k0 v d) -> (k, t) = (k0, v) \/ (In (k, t) d /\ k <> k0).
Proof.
  induction d as [|[k' v'] d IH]; simpl; intros Hn.
  - intros [H|[]]. now left.
  - inversion Hn as [|? ? Hk Hd]; subst.
    destruct (label_eqb k' k0) eqn:E; simpl.
    + apply label_eqb_eq in E. subst k'. intros [H|H]; [now left|].
      right. split; [now right|]. intros ->. apply Hk.
      now apply (in_map fst) in H.
    + intros [H|H].
      * right. split; [now left|]. injection H as <- <-.
        intros ->. now rewrite label_eqb_refl in E.
      * destruct (IH Hd H) as [?|[? ?]]; auto.
Qed.

(** X17: when the processor and the files agree and [load_weekly_data]
    returns a table for a label whose file name is the file name of no
    other stored label, they agree again after the call: the metadata
    file, the week files and the store describe the same weeks. *)
Theorem load_weekly_data_keeps_sync d self file_path csv week_label now d' self' df l :
  in_sync self d ->
  load_weekly_data_io d self file_path csv week_label now = (d', self', Ok df) ->
  resolve_week_label file_path week_label now = Some l ->
  (forall l', In (Some l') (metadata_weeks self) ->
              week_file_name l' = week_file_name l -> l' = l) ->
  in_sync self' d'.
Proof.
  intros (Hc & Hm & Hf & Hp) Hrun Hl Hinj.
  pose proof (load_weekly_data_consistent self file_path csv week_label now Hc)
    as Hc'.
  rewrite <- load_weekly_data_io_processor with (d := d) in Hc'.
  rewrite Hrun in Hc'. simpl in Hc'.
  unfold load_weekly_data_io in Hrun.
  destruct (convert_percent_columns percent_columns csv) as [df0|];
    [|discriminate].
  rewrite Hl in Hrun. injection Hrun as <- <- <-.
  split; [exact Hc'|]. split; [reflexivity|]. split; [|exact Hp].
  cbn [historical_data week_pkl]. intros k t Hin.
  destruct Hc as [Hk Hn].
  apply dict_set_in_other in Hin; [|now rewrite Hk].
  destruct Hin as [[= -> ->]|[Hin Hne]].
  - exists l. split; trivial. unfold write_file. now rewrite String.eqb_refl.
  - destruct (Hf k t Hin) as (l' & -> & Hfile). exists l'. split; trivial.
    unfold write_file.
    destruct (String.eqb (week_file_name l') (week_file_name l)) eqn:E; trivial.
    apply String.eqb_eq in E. exfalso. apply Hne. f_equal. apply Hinj; trivial.
    rewrite <- Hk. now apply (in_map fst) in Hin.
Qed.

Lemma load_weekly_data_keeps_sync_witness :
  in_sync two_small_weeks two_small_weeks_disk.
Proof.
  pose (p1 := fst (load_weekly_data with_mapping "w1.csv"
                     [sample_raw "A" "s1" 60 58 20 5 2 0;
                      sample_raw "C" "s3" 500 480 100 20 20 1]
                     (Some "2025-06-30 a 2025-07-06") sample_clock)).
  pose (d1 := fst (fst (load_weekly_data_io
                          (fst (fst (load_automation_mapping_io empty_disk init
                                       sample_mapping)))
                          with_mapping "w1.csv"
                          [sample_raw "A" "s1" 60 58 20 5 2 0;
                           sample_raw "C" "s3" 500 480 100 20 20 1]
                          (Some "2025-06-30 a 2025-07-06") sample_clock))).
  apply (load_weekly_data_keeps_sync d1 p1 "w2.csv"
           [sample_raw "A" "s1" 60 59 10 5 1 0]
           (Some "2025-07-07 a 2025-07-13") sample_clock
           two_small_weeks_disk two_small_weeks
           (map (process_row (Some "2025-07-07 a 2025-07-13"))
                [sample_raw "A" "s1" 60 59 10 5 1 0])
           "2025-07-07 a 2025-07-13").
  - split; [split; [reflexivity|]|split; [reflexivity|split; [|reflexivity]]].
    + vm_compute. repeat constructor; simpl; intuition discriminate.
    + intros k t H. vm_compute in H. destruct H as [H|[]].
      injection H as <- <-. eexists. split; reflexivity.
  - vm_compute. reflexivity.
  - vm_compute. reflexivity.
  - intros l' H. vm_compute in H. destruct H as [[= <-]|[]].
    vm_compute. discriminate.
Defined.

Lemma load_weeks_none d weeks : forall hist success,
  In None weeks -> snd (load_weeks d weeks hist success) = Raise AttributeError.
Proof.
  induction weeks as [|[l|] weeks IH]; simpl; intros hist success H;
    [tauto| |reflexivity].
  destruct H as [H|H]; [discriminate|].
  destruct (week_pkl d (week_file_name l)); now apply IH.
Qed.

Lemma load_saved_data_none self d :
  In None (metadata_weeks self) ->
  snd (load_saved_data self d) = Raise AttributeError.
Proof.
  intros H. unfold load_saved_data.
  pose proof (load_weeks_none d (metadata_weeks self) (historical_data self)
                (match mapping_pkl d with Some _ => true | None => false end) H) as E.
  destruct (load_weeks d (metadata_weeks self) (historical_data self) _)
    as [hist [b|e]]; simpl in E; [discriminate|]. simpl. congruence.
Qed.

(** X18: when an export is loaded without a label from a file whose name
    gives none, the [None] label is written to the metadata file, and
    from then on [load_saved_data] raises [AttributeError], on the same
    processor and on a new processor of the same data directory. *)
Theorem reload_raises_after_unlabelled_load d self file_path csv now df0 :
  convert_percent_columns percent_columns csv = Ok df0 ->
  resolve_week_label file_path None now = None ->
  let d' := fst (fst (load_weekly_data_io d self file_path csv None now)) in
  let self' := snd (fst (load_weekly_data_io d self file_path csv None now)) in
  snd (load_saved_data self' d') = Raise AttributeError
  /\ snd (load_saved_data (new_processor d') d') = Raise AttributeError.
Proof.
  intros Hc Hl d' self'. subst d' self'.
  unfold load_weekly_data_io. rewrite Hc, Hl. cbn [fst snd].
  assert (Hin : In None (if label_in None (metadata_weeks self)
                         then metadata_weeks self
                         else (metadata_weeks self ++ [None])%list)).
  { destruct (label_in None (metadata_weeks self)) eqn:E.
    - now apply label_in_iff.
    - apply in_app_iff. right. now left. }
  split; apply load_saved_data_none; exact Hin.
Qed.

Lemma reload_raises_after_unlabelled_load_witness :
  snd (load_saved_data
         (new_processor
            (fst (fst (load_weekly_data_io empty_disk with_mapping upload_path
                         [sample_raw "A" "s1" 100 98 25 5 2 0] None sample_clock))))
         (fst (fst (load_weekly_data_io empty_disk with_mapping upload_path
                      [sample_raw "A" "s1" 100 98 25 5 2 0] None sample_clock))))
  = Raise AttributeError.
Proof.
  apply (reload_raises_after_unlabelled_load empty_disk with_mapping upload_path
           [sample_raw "A" "s1" 100 98 25 5 2 0] sample_clock
           [sample_raw "A" "s1" 100 98 25 5 2 0]).
  - reflexivity.
  - reflexivity.
Defined.

Lemma load_weeks_flag d weeks : forall hist success,
  ~ In None weeks ->
  exists hist',
    load_weeks d weeks hist success
    = (hist', Ok (andb success (week_files_exist d weeks))).
Proof.
  unfold week_files_exist.
  induction weeks as [|[l|] weeks IH]; simpl; intros hist success H.
  - exists hist. now rewrite andb_true_r.
  - destruct (week_pkl d (week_file_name l)) as [t|].
    + apply IH. tauto.
    + destruct (IH hist false) as [h' ->]; [tauto|].
      exists h'. simpl. now rewrite andb_false_r.
  - tauto.
Qed.

(** X19: when every week of the metadata has a label, [load_saved_data]
    raises nothing, and the flag it returns is true exactly when the
    mapping file and the file of every week of the metadata exist; a
    missing file only clears the flag. *)
Theorem load_saved_data_flag self d :
  ~ In None (metadata_weeks self) ->
  exists self',
    load_saved_data self d
    = (self', Ok (andb (match mapping_pkl d with Some _ => true | None => false end)
                       (week_files_exist d (metadata_weeks self)))).
Proof.
  intros H. unfold load_saved_data.
  destruct (load_weeks_flag d (metadata_weeks self) (historical_data self)
              (match mapping_pkl d with Some _ => true | None => false end) H)
    as [hist ->].
  destruct hist; eexists; reflexivity.
Qed.

Lemma load_saved_data_flag_witness :
  exists self',
    load_saved_data (new_processor two_small_weeks_disk)
      (mkDisk (metadata_json two_small_weeks_disk) None
              (week_pkl two_small_weeks_disk))
    = (self', Ok false).
Proof.
  destruct (load_saved_data_flag (new_processor two_small_weeks_disk)
              (mkDisk (metadata_json two_small_weeks_disk) None
                      (week_pkl two_small_weeks_disk))) as [self' H].
  - vm_compute. intuition discriminate.
  - exists self'. exact H.
Defined.

Lemma load_weeks_get d l t weeks : forall hist success,
  ~ In None weeks ->
  week_pkl d (week_file_name l) = Some t ->
  In (Some l) weeks \/ dict_get (Some l) hist = Some t ->
  dict_get (Some l) (fst (load_weeks d weeks hist success)) = Some t.
Proof.
  induction weeks as [|[l0|] weeks IH]; simpl; intros hist success Hn Hf H.
  - tauto.
  - assert (Hn' : ~ In None weeks) by tauto.
    destruct (string_dec l0 l) as [->|Hne].
    + rewrite Hf. apply IH; trivial. right. apply dict_get_set_same.
    + assert (H' : forall h, dict_get (Some l) h = dict_get (Some l) hist ->
                     In (Some l) weeks \/ dict_get (Some l) h = Some t).
      { intros h Hh. destruct H as [[H|H]|H]; [congruence|now left|].
        right. congruence. }
      destruct (week_pkl d (week_file_name l0)) as [t0|].
      * apply IH; trivial. apply H'. apply dict_get_set_other. congruence.
      * apply IH; trivial. now apply H'.
  - tauto.
Qed.

Lemma load_saved_data_store self d :
  historical_data (fst (load_saved_data self d))
  = fst (load_weeks d (metadata_weeks self) (historical_data self)
           (match mapping_pkl d with Some _ => true | None => false end)).
Proof.
  unfold load_saved_data.
  destruct (load_weeks d (metadata_weeks self) (historical_data self) _)
    as [hist [b|e]]; simpl; trivial.
  destruct hist; trivial.
Qed.

(** X20: two labels with the same storage key share one week file: when a
    week is loaded under a label whose file name is the file name of a
    label already in the metadata (all of whose weeks have a label), a new
    processor of the same data directory finds, under the older label, the
    table of the week just loaded, whose rows carry the newer label. *)
Theorem same_storage_key_overwrites d self file_path csv week_label now d' self' df l1 l2 :
  load_weekly_data_io d self file_path csv week_label now = (d', self', Ok df) ->
  resolve_week_label file_path week_label now = Some l2 ->
  In (Some l1) (metadata_weeks self) ->
  ~ In None (metadata_weeks self) ->
  week_file_name l1 = week_file_name l2 ->
  dict_get (Some l1) (historical_data (fst (load_saved_data (new_processor d') d')))
  = Some df
  /\ Forall (fun r => Semana r = Some l2) df.
Proof.
  intros Hrun Hl Hin Hnone Hname.
  unfold load_weekly_data_io in Hrun.
  destruct (convert_percent_columns percent_columns csv) as [df0|];
    [|discriminate].
  rewrite Hl in Hrun. injection Hrun as <- <- <-. split.
  - rewrite load_saved_data_store. apply load_weeks_get.
    + cbn [new_processor metadata_weeks metadata_json].
      destruct (label_in (Some l2) (metadata_weeks self)); trivial.
      rewrite in_app_iff. simpl. intuition discriminate.
    + cbn [week_pkl]. unfold write_file. now rewrite Hname, String.eqb_refl.
    + left. cbn [new_processor metadata_weeks metadata_json].
      destruct (label_in (Some l2) (metadata_weeks self)); trivial.
      apply in_app_iff. now left.
  - apply Forall_map. apply Forall_forall. reflexivity.
Qed.

Lemma same_storage_key_overwrites_witness :
  week_file_name "2025/07/07" = week_file_name "2025-07-07"
  /\ exists df,
       dict_get (Some "2025/07/07")
         (historical_data
            (fst (load_saved_data
                    (new_processor
                       (fst (fst (load_weekly_data_io
                                    (fst (fst (load_weekly_data_io empty_disk init "a.csv"
                                                 [sample_raw "A" "s1" 60 58 20 5 2 0]
                                                 (Some "2025/07/07") sample_clock)))
                                    (snd (fst (load_weekly_data_io empty_disk init "a.csv"
                                                 [sample_raw "A" "s1" 60 58 20 5 2 0]
                                                 (Some "2025/07/07") sample_clock)))
                                    "b.csv" [sample_raw "B" "s2" 70 68 20 5 2 0]
                                    (Some "2025-07-07") sample_clock))))
                    (fst (fst (load_weekly_data_io
                                 (fst (fst (load_weekly_data_io empty_disk init "a.csv"
                                              [sample_raw "A" "s1" 60 58 20 5 2 0]
                                              (Some "2025/07/07") sample_clock)))
                                 (snd (fst (load_weekly_data_io empty_disk init "a.csv"
                                              [sample_raw "A" "s1" 60 58 20 5 2 0]
                                              (Some "2025/07/07") sample_clock)))
                                 "b.csv" [sample_raw "B" "s2" 70 68 20 5 2 0]
                                 (Some "2025-07-07") sample_clock))))))
       = Some df
       /\ Forall (fun r => Semana r = Some "2025-07-07") df.
Proof.
  split; [reflexivity|]. eexists.
  eapply (same_storage_key_overwrites
            (fst (fst (load_weekly_data_io empty_disk init "a.csv"
                         [sample_raw "A" "s1" 60 58 20 5 2 0]
                         (Some "2025/07/07") sample_clock)))
            (snd (fst (load_weekly_data_io empty_disk init "a.csv"
                         [sample_raw "A" "s1" 60 58 20 5 2 0]
                         (Some "2025/07/07") sample_clock)))
            "b.csv" [sample_raw "B" "s2" 70 68 20 5 2 0]
            (Some "2025-07-07") sample_clock).
  - vm_compute. reflexivity.
  - vm_compute. reflexivity.
  - vm_compute. now left.
  - vm_compute. intuition discriminate.
  - vm_compute. reflexivity.
Defined.

(** ** The label read from a file name *)

Lemma prefix_refl_app sep rest : String.prefix sep (sep ++ rest) = true.
Proof.
  induction sep as [|c sep IH]; simpl; [now destruct rest|].
  destruct (ascii_dec c c); [exact IH|congruence].
Qed.

Lemma prefix_app_long sep : forall a b,
  (String.length sep <= String.length a)%nat ->
  String.prefix sep (a ++ b) = String.prefix sep a.
Proof.
  induction sep as [|c sep IH]; intros a b H.
  - now destruct a, b.
  - destruct a as [|c' a]; simpl in H; [lia|]. simpl.
    destruct (ascii_dec c c'); trivial. apply IH. lia.
Qed.

Lemma string_length_app a b :
  String.length (a ++ b) = (String.length a + String.length b)%nat.
Proof. induction a; simpl; congruence. Qed.

Lemma split_aux_skip sep x b : forall cur,
  split_aux sep (String.length x) cur (x ++ b) = split_aux sep 0 cur b.
Proof.
  induction x as [|c x IH]; intros cur; [reflexivity|]. simpl. apply IH.
Qed.

Lemma split_aux_none sep s : forall cur,
  contains sep s = false -> split_aux sep 0 cur s = [cur ++ s].
Proof.
  induction s as [|c s IH]; intros cur; cbn [contains split_aux].
  - intros _. now rewrite append_nil_r.
  - destruct (String.prefix sep (String c s)); [discriminate|].
    intros H. rewrite IH by assumption. now rewrite append_assoc.
Qed.

(** The first piece of a split: [init] is the separator without its last
    character, so that the hypothesis says that no separator starts inside
    [pre]. *)
Lemma split_aux_first sep init c0 rest :
  sep = init ++ String c0 "" ->
  forall pre cur,
    contains sep (pre ++ init) = false ->
    split_aux sep 0 cur (pre ++ sep ++ rest)
    = (cur ++ pre) :: split_aux sep 0 "" rest.
Proof.
  intros Hsep. induction pre as [|c pre IH]; intros cur H.
  - cbn [append]. rewrite append_nil_r.
    destruct sep as [|c1 st] eqn:Es; [destruct init; discriminate|].
    cbn [append split_aux]. rewrite <- Es at 1.
    change (String c1 (st ++ rest)) with (String c1 st ++ rest).
    rewrite <- Es, prefix_refl_app. rewrite Es.
    cbn [String.length Nat.sub]. rewrite Nat.sub_0_r.
    f_equal. apply split_aux_skip.
  - cbn [append contains] in H. cbn [append split_aux].
    assert (Hp : String.prefix sep (String c (pre ++ sep ++ rest)) = false).
    { change (String c (pre ++ sep ++ rest)) with (String c pre ++ sep ++ rest).
      rewrite Hsep at 2. rewrite append_assoc.
      rewrite <- (append_assoc (String c pre) init).
      rewrite prefix_app_long.
      - cbn [append].
        destruct (String.prefix sep (String c (pre ++ init))); trivial;
          discriminate.
      - rewrite Hsep, !string_length_app. simpl. lia. }
    rewrite Hp. rewrite IH.
    + now rewrite append_assoc.
    + destruct (String.prefix sep (String c (pre ++ init))); [discriminate|exact H].
Qed.

Lemma contains_app sep pre rest : contains sep (pre ++ sep ++ rest) = true.
Proof.
  induction pre as [|c pre IH]; cbn [append].
  - destruct sep as [|c st]; [now destruct rest|].
    change (String c st ++ rest) with (String c (st ++ rest)). cbn [contains].
    change (String c (st ++ rest)) with (String c st ++ rest).
    now rewrite prefix_refl_app.
  - cbn [contains]. rewrite IH.
    now destruct (String.prefix sep (String c (pre ++ sep ++ rest))).
Qed.

Lemma substring_take a b : String.substring 0 (String.length a) (a ++ b) = a.
Proof. induction a as [|c a IH]; simpl; [now destruct b|]. now rewrite IH. Qed.

Lemma substring_all b : String.substring 0 (String.length b) b = b.
Proof. induction b as [|c b IH]; simpl; congruence. Qed.

Lemma substring_drop a b :
  String.substring (String.length a) (String.length b) (a ++ b) = b.
Proof. induction a as [|c a IH]; simpl; [apply substring_all|exact IH]. Qed.

(** X21: a path whose file name is [<pre>sent_<d1><d2>.csv], where [d1] has
    10 characters (ASCII), [sent_] occurs in the name only after [pre] and
    [.csv] only at the end, gives without an explicit label the week label
    [<d1> a <d2>], whatever the directory and the date. *)
Theorem label_of_export_file_name dir pre d1 d2 now :
  is_ascii d1 = true ->
  ~ In "/"%char (list_ascii_of_string (pre ++ "sent_" ++ (d1 ++ d2) ++ ".csv")) ->
  contains "sent_" (pre ++ "sent") = false ->
  contains "sent_" ((d1 ++ d2) ++ ".csv") = false ->
  contains ".csv" ((d1 ++ d2) ++ ".cs") = false ->
  String.length d1 = 10%nat ->
  resolve_week_label (dir ++ "/" ++ pre ++ "sent_" ++ (d1 ++ d2) ++ ".csv") None now
  = Some (d1 ++ " a " ++ d2).
Proof.
  intros _ Hslash Hpre Hrest Hcsv Hlen.
  unfold resolve_week_label, label_from_filename. cbv zeta.
  assert (Hb : basename (dir ++ "/" ++ pre ++ "sent_" ++ (d1 ++ d2) ++ ".csv")
               = pre ++ "sent_" ++ (d1 ++ d2) ++ ".csv").
  { unfold basename. rewrite basename_aux_after_slash.
    now rewrite basename_aux_no_slash. }
  rewrite Hb. rewrite contains_app.
  replace (contains ".csv" (pre ++ "sent_" ++ (d1 ++ d2) ++ ".csv")) with true.
  2:{ symmetry. rewrite <- (append_nil_r ".csv").
      rewrite <- (append_assoc pre "sent_"), <- append_assoc.
      apply contains_app. }
  cbn [andb]. unfold split.
  rewrite (split_aux_first "sent_" "sent" "_" _ eq_refl pre "" Hpre).
  rewrite (split_aux_none "sent_" _ "" Hrest).
  cbn [nth_error append].
  assert (Hs2 : split_aux ".csv" 0 "" ((d1 ++ d2) ++ ".csv") = [d1 ++ d2; ""])
    by exact (split_aux_first ".csv" ".cs" "v" "" eq_refl (d1 ++ d2) "" Hcsv).
  rewrite Hs2. cbn [nth_error].
  unfold slice_to, slice_from.
  replace (String.substring 0 10 (d1 ++ d2)) with d1
    by (rewrite <- Hlen; symmetry; apply substring_take).
  replace (String.substring 10 (String.length (d1 ++ d2) - 10) (d1 ++ d2)) with d2;
    [reflexivity|].
  rewrite string_length_app, Hlen.
  replace (10 + String.length d2 - 10)%nat with (String.length d2) by lia.
  rewrite <- Hlen. symmetry. apply substring_drop.
Qed.

Lemma label_of_export_file_name_witness :
  resolve_week_label "/tmp/Automation messages sent_2025-06-302025-07-06.csv"
                     None sample_clock
  = Some "2025-06-30 a 2025-07-06".
Proof.
  apply (label_of_export_file_name "/tmp" "Automation messages "
           "2025-06-30" "2025-07-06" sample_clock).
  - reflexivity.
  - vm_compute. intuition discriminate.
  - reflexivity.
  - reflexivity.
  - reflexivity.
  - reflexivity.
Defined.

(** ** Percent texts made of digits *)

Lemma digit_val_char d : (d < 10)%nat -> digit_val (digit_char d) = Some (Z.of_nat d).
Proof.
  intros H. do 10 (destruct d as [|d]; [reflexivity|]). exfalso. lia.
Qed.

Lemma digit_char_plain d :
  (d < 10)%nat ->
  is_float_space (digit_char d) = false
  /\ lower (digit_char d) = digit_char d
  /\ Ascii.eqb (digit_char d) "%" = false
  /\ Ascii.eqb (digit_char d) "-" = false
  /\ Ascii.eqb (digit_char d) "+" = false
  /\ Ascii.eqb (digit_char d) "i" = false
  /\ Ascii.eqb (digit_char d) "n" = false.
Proof.
  intros H. do 10 (destruct d as [|d]; [repeat split|]). exfalso. lia.
Qed.

Lemma digits_tail_digits us rest ds :
  Forall (fun d => (d < 10)%nat) ds ->
  (rest = [] \/ exists c r, rest = c :: r /\ digit_val c = None
                            /\ Ascii.eqb c "_" = false) ->
  digits_tail us (map digit_char ds ++ rest)%list = (map Z.of_nat ds, rest).
Proof.
  intros Hd Hr. induction Hd as [|d ds Hlt _ IH]; cbn [map app].
  - destruct Hr as [->|(c & r & -> & Hc & Hu)]; trivial.
    cbn [digits_tail]. rewrite Hc, Hu. now rewrite andb_false_r.
  - cbn [digits_tail]. rewrite (digit_val_char d Hlt). now rewrite IH.
Qed.

Lemma digitpart_digits us rest ds :
  ds <> [] ->
  Forall (fun d => (d < 10)%nat) ds ->
  (rest = [] \/ exists c r, rest = c :: r /\ digit_val c = None
                            /\ Ascii.eqb c "_" = false) ->
  digitpart us (map digit_char ds ++ rest)%list = (map Z.of_nat ds, rest).
Proof.
  intros Hne Hd Hr. destruct ds as [|d ds]; [congruence|].
  unfold digitpart. cbn [map app].
  inversion Hd; subst. rewrite digit_val_char by assumption.
  now apply (digits_tail_digits us rest (d :: ds)).
Qed.

Lemma strip_float_space_plain l :
  Forall (fun c => is_float_space c = false) l -> strip_float_space l = l.
Proof.
  intros H. unfold strip_float_space.
  assert (E : forall l', Forall (fun c => is_float_space c = false) l' ->
                         lstrip_float_space l' = l').
  { intros l' H'. destruct H' as [|c l' Hc _]; cbn [lstrip_float_space]; trivial.
    now rewrite Hc. }
  rewrite (E l H). rewrite E; [apply rev_involutive|].
  apply Forall_rev. exact H.
Qed.

Lemma rstrip_percent t :
  Forall (fun c => Ascii.eqb c "%" = false) (list_ascii_of_string t) ->
  rstrip_char "%" (t ++ "%") = t.
Proof.
  induction t as [|a t IH]; cbn [append rstrip_char list_ascii_of_string];
    intros H; trivial.
  inversion H as [|? ? Ha Ht]; subst. rewrite (IH Ht).
  destruct t; trivial. now rewrite Ha.
Qed.

Lemma endswith_app a b : endswith (a ++ b) b = true.
Proof.
  induction a as [|c a IH]; cbn [append].
  - destruct b; simpl; [reflexivity|]. now rewrite Ascii.eqb_refl, String.eqb_refl.
  - cbn [endswith]. rewrite IH. now destruct (String.eqb (String c (a ++ b)) b).
Qed.

Lemma strip_percent_text t c0 t' :
  t = String c0 t' ->
  Forall (fun c => Ascii.eqb c "%" = false) (list_ascii_of_string t) ->
  strip_char "%" (t ++ "%") = t.
Proof.
  intros -> H. unfold strip_char. cbn [append lstrip_char].
  inversion H as [|? ? Hc _]; subst. rewrite Hc.
  now apply (rstrip_percent (String c0 t')).
Qed.

Lemma Z_of_digits_scale m k :
  (scale10 m (- Z.of_nat k) == inject_Z m / inject_Z (10 ^ Z.of_nat k))%Q.
Proof.
  unfold scale10. destruct k as [|k].
  - simpl. rewrite Z.mul_1_r. change (inject_Z 1) with 1%Q. field.
  - replace (0 <=? - Z.of_nat (S k))%Z with false by (symmetry; apply Z.leb_gt; lia).
    rewrite Qred_correct, Z.opp_involutive.
    rewrite (Qmake_Qdiv m (Z.to_pos (10 ^ Z.of_nat (S k)))).
    rewrite Z2Pos.id; [reflexivity|]. apply Z.pow_pos_nonneg; lia.
Qed.

Lemma Z_of_digits_from_bound ds : forall acc a,
  Forall (fun d => (d < 10)%nat) ds ->
  (0 <= acc < 10 ^ Z.of_nat a)%Z ->
  (0 <= fold_left (fun acc d => (10 * acc + d)%Z) (map Z.of_nat ds) acc
   < 10 ^ Z.of_nat (a + List.length ds))%Z.
Proof.
  induction ds as [|d ds IH]; intros acc a H Ha; cbn [map fold_left List.length].
  - now rewrite Nat.add_0_r.
  - inversion H as [|? ? Hd Hds]; subst.
    replace (a + S (List.length ds))%nat with (S a + List.length ds)%nat by lia.
    apply IH; trivial. rewrite Nat2Z.inj_succ, Z.pow_succ_r by lia.
    set (p := (10 ^ Z.of_nat a)%Z) in *. lia.
Qed.

Lemma Z_of_digits_bound ds :
  Forall (fun d => (d < 10)%nat) ds ->
  (0 <= Z_of_digits (map Z.of_nat ds) < 10 ^ Z.of_nat (List.length ds))%Z.
Proof.
  intros H. apply (Z_of_digits_from_bound ds 0 0 H). simpl. lia.
Qed.

(** A decimal with at most 308 digits before the point is below the
    least magnitude read as an infinity. *)
Lemma decimal_below_overflow m n k :
  (0 <= m < 10 ^ Z.of_nat (n + k))%Z -> (n <= 308)%nat ->
  Qle_bool float_overflow (scale10 m (- Z.of_nat k)) = false.
Proof.
  intros Hm Hn.
  destruct (Qle_bool float_overflow (scale10 m (- Z.of_nat k))) eqn:E; trivial.
  exfalso. apply Qle_bool_iff in E. rewrite Z_of_digits_scale in E.
  apply (Qle_not_lt _ _ E).
  apply Qlt_le_trans with (inject_Z (10 ^ Z.of_nat n)).
  - apply Qlt_shift_div_r.
    + rewrite <- (Zlt_Qlt 0). apply Z.pow_pos_nonneg; lia.
    + rewrite <- inject_Z_mult, <- Zlt_Qlt, <- Z.pow_add_r by lia.
      rewrite <- Nat2Z.inj_add. apply Hm.
  - apply Qle_trans with (inject_Z (10 ^ 308)).
    + rewrite <- Zle_Qle. apply Z.pow_le_mono_r; lia.
    + unfold float_overflow. rewrite <- Zle_Qle.
      apply Z.leb_le. vm_compute. reflexivity.
Qed.

(** The number read from the text of a decimal number without sign. *)
Lemma py_float_decimal ip fp :
  ip <> [] -> (List.length ip <= 308)%nat ->
  Forall (fun d => (d < 10)%nat) ip -> Forall (fun d => (d < 10)%nat) fp ->
  exists q, py_float (digits_text ip ++ "." ++ digits_text fp) = Some (Fin q)
            /\ (q == decimal_value ip fp)%Q.
Proof.
  intros Hne Hlen Hi Hf.
  assert (Hchars : list_ascii_of_string (digits_text ip ++ "." ++ digits_text fp)
                   = (map digit_char ip ++ "."%char :: map digit_char fp)%list).
  { unfold digits_text. rewrite !list_ascii_of_string_app.
    now rewrite !list_ascii_of_string_of_list_ascii. }
  assert (Hplain : Forall (fun c => is_float_space c = false)
                     (map digit_char ip ++ "."%char :: map digit_char fp)%list).
  { apply Forall_app. split; [|constructor; [reflexivity|]];
      apply Forall_map; (eapply Forall_impl; [|eassumption]);
      intros d Hd; now destruct (digit_char_plain d Hd). }
  assert (Hbound : (0 <= Z_of_digits (map Z.of_nat (ip ++ fp))
                    < 10 ^ Z.of_nat (List.length ip + List.length fp))%Z).
  { rewrite <- length_app. apply Z_of_digits_bound. apply Forall_app. now split. }
  unfold py_float, read_number. rewrite Hchars, strip_float_space_plain by assumption.
  destruct ip as [|d ip]; [congruence|]. inversion Hi as [|? ? Hd Hi']; subst.
  destruct (digit_char_plain d Hd) as (_ & Hlow & _ & Hminus & Hplus & Hi0 & Hn0).
  cbn [map app read_sign]. rewrite Hminus, Hplus.
  unfold lower_string. cbn [map string_of_list_ascii]. rewrite Hlow.
  cbn [String.eqb]. rewrite Hi0, Hn0. cbn [orb].
  unfold read_decimal.
  change (digit_char d :: (map digit_char ip ++ "."%char :: map digit_char fp)%list)
    with (map digit_char (d :: ip) ++ "."%char :: map digit_char fp)%list.
  rewrite (digitpart_digits true _ (d :: ip)); trivial.
  2:{ right. exists "."%char, (map digit_char fp). repeat split. }
  rewrite Ascii.eqb_refl.
  assert (Hfp : digitpart true (map digit_char fp) = (map Z.of_nat fp, [])).
  { destruct fp as [|f fp]; [reflexivity|].
    rewrite <- (app_nil_r (map digit_char (f :: fp))).
    apply digitpart_digits; auto. discriminate. }
  rewrite Hfp. cbn [map app read_exponent].
  rewrite length_map.
  replace (0 - Z.of_nat (List.length fp))%Z with (- Z.of_nat (List.length fp))%Z by lia.
  change (Z.of_nat d :: (map Z.of_nat ip ++ map Z.of_nat fp)%list)
    with (map Z.of_nat (d :: ip) ++ map Z.of_nat fp)%list.
  rewrite <- map_app. unfold to_float.
  rewrite (decimal_below_overflow _ (List.length (d :: ip)) (List.length fp) Hbound Hlen).
  eexists. split; [reflexivity|].
  rewrite Z_of_digits_scale. reflexivity.
Qed.

(** X22: the rate cell [<digits>.<digits>%] (at least one digit and at
    most 308 digits before the point, so that the number is below the
    largest [float64]) is converted, without an exception, to the number
    it writes divided by 100. *)
Theorem percent_text_of_decimal ip fp :
  ip <> [] -> (List.length ip <= 308)%nat ->
  Forall (fun d => (d < 10)%nat) ip -> Forall (fun d => (d < 10)%nat) fp ->
  exists q,
    _convert_percent_to_float (CStr ((digits_text ip ++ "." ++ digits_text fp) ++ "%"))
    = Ok (CNum (Fin q))
    /\ (q == decimal_value ip fp / 100)%Q.
Proof.
  intros Hne Hlen Hi Hf.
  destruct (py_float_decimal ip fp Hne Hlen Hi Hf) as (q & Hq & Eq).
  unfold _convert_percent_to_float. rewrite endswith_app.
  destruct ip as [|d ip]; [congruence|].
  rewrite (strip_percent_text _ (digit_char d)
             (digits_text ip ++ "." ++ digits_text fp)); trivial.
  - rewrite Hq. unfold ndiv, fin_z. change (qsign (inject_Z 100)) with Gt.
    cbv iota. eexists. split; [reflexivity|].
    rewrite Qred_correct, Eq. reflexivity.
  - unfold digits_text. rewrite !list_ascii_of_string_app.
    rewrite !list_ascii_of_string_of_list_ascii.
    apply Forall_app. split; [|constructor; [reflexivity|]];
      apply Forall_map; (eapply Forall_impl; [|eassumption]);
      intros x Hx; now destruct (digit_char_plain x Hx) as (_ & _ & ? & _).
Qed.

Lemma percent_text_of_decimal_witness :
  exists q, _convert_percent_to_float (CStr "25.5%") = Ok (CNum (Fin q))
            /\ (q == (51 # 200))%Q.
Proof.
  destruct (percent_text_of_decimal [2; 5]%nat [5]%nat) as (q & Hq & Eq).
  - discriminate.
  - simpl. lia.
  - repeat constructor.
  - repeat constructor.
  - exists q. split; [exact Hq|]. rewrite Eq. reflexivity.
Defined.

(** ** Rates of a week between 0 and 1 *)

Lemma nsum_from_le (f g : row -> num) df : forall x y,
  (0 <= x)%Q -> (x <= y)%Q ->
  Forall (fun r => exists a b, f r = Fin a /\ g r = Fin b
                               /\ (0 <= a)%Q /\ (a <= b)%Q) df ->
  exists x' y',
    fold_left (fun acc v => if isnan v then acc else nadd acc v) (map f df) (Fin x)
    = Fin x'
    /\ fold_left (fun acc v => if isnan v then acc else nadd acc v) (map g df) (Fin y)
       = Fin y'
    /\ (0 <= x')%Q /\ (x' <= y')%Q.
Proof.
  induction df as [|r df IH]; intros x y Hx Hxy H; cbn [map fold_left].
  - exists x, y. auto.
  - inversion H as [|? ? (a & b & Ha & Hb & Ha0 & Hab) Hdf]; subst.
    rewrite Ha, Hb. cbn [isnan nadd]. apply IH; trivial.
    + rewrite Qred_correct. rewrite <- (Qplus_0_l 0). now apply Qplus_le_compat.
    + rewrite !Qred_correct. now apply Qplus_le_compat.
Qed.

Lemma nsum_le (f g : row -> num) df :
  Forall (fun r => exists a b, f r = Fin a /\ g r = Fin b
                               /\ (0 <= a)%Q /\ (a <= b)%Q) df ->
  exists x y, nsum (map f df) = Fin x /\ nsum (map g df) = Fin y
              /\ (0 <= x)%Q /\ (x <= y)%Q.
Proof. apply nsum_from_le; apply Qle_refl. Qed.

Lemma guarded_ratio_in_unit x y :
  (0 <= x)%Q -> (x <= y)%Q -> in_unit (guarded_ratio (Fin x) (Fin y)).
Proof.
  intros Hx Hxy. unfold guarded_ratio, ngt, fin_z.
  destruct (y ?= inject_Z 0)%Q eqn:E;
    try (cbn [in_unit]; split; discriminate).
  assert (Hy : (0 < y)%Q) by (now apply Qgt_alt in E).
  assert (Hs : qsign y = Gt).
  { unfold qsign. unfold Qlt in Hy. simpl in Hy. apply Z.compare_gt_iff. lia. }
  unfold ndiv. rewrite Hs. cbn [in_unit]. rewrite Qred_correct. split.
  - apply Qle_shift_div_l; trivial. now rewrite Qmult_0_l.
  - apply Qle_shift_div_r; trivial. now rewrite Qmult_1_l.
Qed.

Lemma nested_counts_le r :
  nested_counts (vol r) ->
  exists s d o k,
    Sent (vol r) = Fin s /\ Delivered (vol r) = Fin d /\ Opened (vol r) = Fin o
    /\ Clicked (vol r) = Fin k
    /\ (0 <= k)%Q /\ (k <= o)%Q /\ (o <= d)%Q /\ (d <= s)%Q.
Proof.
  intros (s & d & o & k & Hs & Hd & Ho & Hk & H0 & H1 & H2 & H3).
  exists (inject_Z s), (inject_Z d), (inject_Z o), (inject_Z k).
  repeat split; trivial.
  - change 0%Q with (inject_Z 0). now rewrite <- Zle_Qle.
  - now rewrite <- Zle_Qle.
  - now rewrite <- Zle_Qle.
  - now rewrite <- Zle_Qle.
Qed.

(** X23: when the volumes of every row of a week are whole numbers and
    nested (0 <= clicked <= opened <= delivered <= sent) and the total
    sent stays below 2^53 (where the sums are exact), the delivery rate,
    the open rate, the click rate and the click-to-open rate of the week
    summary are between 0 and 1, also when a total is 0. *)
Theorem week_summary_rates_in_unit self week_label s df :
  get_week_summary self week_label = Ok s ->
  dict_get (Some (semana s)) (historical_data self) = Some df ->
  Forall (fun r => nested_counts (vol r)) df ->
  exact_total (sum_Sent (week_totals df)) ->
  in_unit (delivery_rate s) /\ in_unit (open_rate s)
  /\ in_unit (click_rate s) /\ in_unit (ctor s).
Proof.
  intros Hrun Hget Hnested _.
  assert (Hrows : Forall (fun r => exists s d o k,
             Sent (vol r) = Fin s /\ Delivered (vol r) = Fin d
             /\ Opened (vol r) = Fin o /\ Clicked (vol r) = Fin k
             /\ (0 <= k)%Q /\ (k <= o)%Q /\ (o <= d)%Q /\ (d <= s)%Q) df).
  { eapply Forall_impl; [|exact Hnested]. intros r. apply nested_counts_le. }
  assert (Hs : exists l df0,
             dict_get (Some l) (historical_data self) = Some df0
             /\ semana s = l
             /\ delivery_rate s
                = guarded_ratio (sum_Delivered (week_totals df0)) (sum_Sent (week_totals df0))
             /\ open_rate s
                = guarded_ratio (sum_Opened (week_totals df0)) (sum_Delivered (week_totals df0))
             /\ click_rate s
                = guarded_ratio (sum_Clicked (week_totals df0)) (sum_Delivered (week_totals df0))
             /\ ctor s
                = guarded_ratio (sum_Clicked (week_totals df0)) (sum_Opened (week_totals df0))).
  { unfold get_week_summary in Hrun.
    destruct (match week_label with
              | Some _ => Ok week_label
              | None => match current_week_data self with
                        | Some [] => Raise IndexError
                        | Some (r :: _) => Ok (Semana r)
                        | None => Ok week_label
                        end
              end) as [[l|]|e] eqn:El.
    - assert (Hrun' :
        match dict_get (Some l) (historical_data self) with
        | Some df0 =>
            let t := week_totals df0 in
            Ok (mkSummary l (sum_Sent t) (sum_Delivered t) (sum_Opened t)
                  (sum_Clicked t) (sum_Bounced t) (sum_Unsubscribed t)
                  (guarded_ratio (sum_Delivered t) (sum_Sent t))
                  (guarded_ratio (sum_Opened t) (sum_Delivered t))
                  (guarded_ratio (sum_Clicked t) (sum_Delivered t))
                  (guarded_ratio (sum_Bounced t) (sum_Sent t))
                  (guarded_ratio (sum_Unsubscribed t) (sum_Delivered t))
                  (guarded_ratio (sum_Clicked t) (sum_Opened t)))
        | None => Raise ValueError
        end = Ok s).
      { destruct week_label as [w|];
          [|destruct (current_week_data self) as [[|r c]|]]; simpl in El;
          try discriminate; injection El as El; try subst; try rewrite El in Hrun;
          exact Hrun. }
      destruct (dict_get (Some l) (historical_data self)) as [df0|] eqn:Eg;
        [|discriminate].
      injection Hrun' as <-. exists l, df0. cbn. repeat split; trivial.
    - destruct week_label as [w|];
        [|destruct (current_week_data self) as [[|r c]|]]; simpl in El;
        try discriminate; injection El as El; try subst; try rewrite El in Hrun;
        discriminate.
    - destruct week_label as [w|];
        [|destruct (current_week_data self) as [[|r c]|]]; simpl in El;
        try discriminate; injection El as El; try subst; try rewrite El in Hrun;
        discriminate. }
  destruct Hs as (l & df0 & Hg & Hl & -> & -> & -> & ->).
  rewrite Hl, Hg in Hget. injection Hget as ->.
  unfold week_totals, sum_group. cbn [sum_Sent sum_Delivered sum_Opened sum_Clicked].
  assert (Hds : exists x y, nsum (map (fun r => Delivered (vol r)) df) = Fin x
                            /\ nsum (map (fun r => Sent (vol r)) df) = Fin y
                            /\ (0 <= x)%Q /\ (x <= y)%Q).
  { apply nsum_le. eapply Forall_impl; [|exact Hrows].
    intros r (s0 & d0 & o0 & k0 & Hs0 & Hd0 & Ho0 & Hk0 & H0 & H1 & H2 & H3).
    exists d0, s0. repeat split; trivial.
    apply Qle_trans with k0; trivial. now apply Qle_trans with o0. }
  assert (Hod : exists x y, nsum (map (fun r => Opened (vol r)) df) = Fin x
                            /\ nsum (map (fun r => Delivered (vol r)) df) = Fin y
                            /\ (0 <= x)%Q /\ (x <= y)%Q).
  { apply nsum_le. eapply Forall_impl; [|exact Hrows].
    intros r (s0 & d0 & o0 & k0 & Hs0 & Hd0 & Ho0 & Hk0 & H0 & H1 & H2 & H3).
    exists o0, d0. repeat split; trivial. now apply Qle_trans with k0. }
  assert (Hkd : exists x y, nsum (map (fun r => Clicked (vol r)) df) = Fin x
                            /\ nsum (map (fun r => Delivered (vol r)) df) = Fin y
                            /\ (0 <= x)%Q /\ (x <= y)%Q).
  { apply nsum_le. eapply Forall_impl; [|exact Hrows].
    intros r (s0 & d0 & o0 & k0 & Hs0 & Hd0 & Ho0 & Hk0 & H0 & H1 & H2 & H3).
    exists k0, d0. repeat split; trivial. now apply Qle_trans with o0. }
  assert (Hko : exists x y, nsum (map (fun r => Clicked (vol r)) df) = Fin x
                            /\ nsum (map (fun r => Opened (vol r)) df) = Fin y
                            /\ (0 <= x)%Q /\ (x <= y)%Q).
  { apply nsum_le. eapply Forall_impl; [|exact Hrows].
    intros r (s0 & d0 & o0 & k0 & Hs0 & Hd0 & Ho0 & Hk0 & H0 & H1 & H2 & H3).
    exists k0, o0. repeat split; trivial. }
  destruct Hds as (x1 & y1 & E1 & E1' & ? & ?).
  destruct Hod as (x2 & y2 & E2 & E2' & ? & ?).
  destruct Hkd as (x3 & y3 & E3 & E3' & ? & ?).
  destruct Hko as (x4 & y4 & E4 & E4' & ? & ?).
  repeat split.
  - rewrite E1, E1'. now apply guarded_ratio_in_unit.
  - rewrite E2, E2'. now apply guarded_ratio_in_unit.
  - rewrite E3, E3'. now apply guarded_ratio_in_unit.
  - rewrite E4, E4'. now apply guarded_ratio_in_unit.
Qed.

Lemma week_summary_rates_in_unit_witness :
  exists s, get_week_summary no_opens None = Ok s
            /\ in_unit (open_rate s) /\ in_unit (ctor s).
Proof.
  destruct (get_week_summary no_opens None) as [s|] eqn:E;
    [|vm_compute in E; discriminate].
  exists s. split; trivial.
  destruct (dict_get (Some (semana s)) (historical_data no_opens)) as [df|] eqn:Eg.
  - assert (Hf : Forall (fun r => nested_counts (vol r)) df
                 /\ exact_total (sum_Sent (week_totals df))).
    { vm_compute in E. injection E as <-. vm_compute in Eg. injection Eg as <-.
      split; [|vm_compute; reflexivity].
      constructor; [|constructor].
      exists 100%Z, 98%Z, 0%Z, 0%Z. repeat split; lia. }
    pose proof (week_summary_rates_in_unit no_opens None s df E Eg
                  (proj1 Hf) (proj2 Hf)). tauto.
  - vm_compute in E. injection E as <-. vm_compute in Eg. discriminate.
Defined.
